(** * pyrin: named-handler registries and dependency-ordered package loading

    A shallow embedding of the registry code of
    [pyrin/security/hashing/manager.py], of the validator services of
    [pyrin/validator/services.py] and of the package loader described for
    [pyrin/packaging], together with the properties their specification
    states about them. *)

From Stdlib Require Import ZArith Ascii String List Lia.
From stdpp Require Import gmap strings list fin_maps.

Local Open Scope string_scope.
Local Open Scope list_scope.

(** ** Python values, strings and exceptions *)

Module Py.

(** The values an option of a [**options] dictionary is given in the calls
    this development looks at. *)
Inductive pyval : Type :=
  | PyNone
  | PyBool (b : bool)
  | PyInt (z : Z)
  | PyStr (s : string).

#[global] Instance pyval_eq_dec : EqDecision pyval.
Proof. solve_decision. Defined.

(** [v is True]: identity with the singleton [True]. *)
Definition is_True (v : pyval) : bool :=
  match v with
  | PyBool true => true
  | _ => false
  end.

(** [bool(v)]: the truth value of an object. *)
Definition truthy (v : pyval) : bool :=
  match v with
  | PyNone => false
  | PyBool b => b
  | PyInt z => negb (z =? 0)%Z
  | PyStr s => negb (String.length s =? 0)%nat
  end.

(** [options.get(key, default)]. *)
Definition options_get (options : gmap string pyval) (key : string)
    (default : pyval) : pyval :=
  match options !! key with
  | Some v => v
  | None => default
  end.

(** A [str] is its sequence of code points; [ascii] holds the code points
    below 256.  These are the ones [str.isspace] accepts in that range. *)
Definition isspace (c : ascii) : bool :=
  let n := nat_of_ascii c in
  (((9 <=? n) && (n <=? 13)) || ((28 <=? n) && (n <=? 32))
   || (n =? 133) || (n =? 160))%nat.

Fixpoint lstrip (s : string) : string :=
  match s with
  | EmptyString => EmptyString
  | String c s' => if isspace c then lstrip s' else s
  end.

Fixpoint reverse_onto (s acc : string) : string :=
  match s with
  | EmptyString => acc
  | String c s' => reverse_onto s' (String c acc)
  end.

Definition reverse (s : string) : string := reverse_onto s EmptyString.

Definition rstrip (s : string) : string := reverse (lstrip (reverse s)).

(** [s.strip()] *)
Definition strip (s : string) : string := rstrip (lstrip s).

(** [len(s)] *)
Definition len (s : string) : nat := String.length s.

Fixpoint all_space (s : string) : bool :=
  match s with
  | EmptyString => true
  | String c s' => isspace c && all_space s'
  end.

(** What a call does: it returns a value or raises. *)
Inductive outcome (E A : Type) : Type :=
  | Return (a : A)
  | Raise (e : E).

Arguments Return {E A} a.
Arguments Raise {E A} e.

(** A method of an object with state [S]: the state it leaves is the one
    reached when it returned or raised. *)
Definition method (S E A : Type) : Type := S -> outcome E A * S.

Definition ret {S E A} (a : A) : method S E A := fun s => (Return a, s).

Definition raise {S E A} (e : E) : method S E A := fun s => (Raise e, s).

Definition bind {S E A B} (m : method S E A) (k : A -> method S E B)
    : method S E B :=
  fun s =>
    match m s with
    | (Return a, s') => k a s'
    | (Raise e, s') => (Raise e, s')
    end.

Definition read {S E} : method S E S := fun s => (Return s, s).

Definition put {S E} (s' : S) : method S E unit := fun _ => (Return tt, s').

End Py.

Import Py.

Declare Scope py_scope.
Delimit Scope py_scope with py.
Notation "x <- m ;; k" := (bind m (fun x => k))
  (at level 100, m at next level, right associativity) : py_scope.
Notation "m ;; k" := (bind m (fun _ => k))
  (at level 100, right associativity) : py_scope.
Local Open Scope py_scope.

(** ** The hashing manager: [pyrin/security/hashing/manager.py] *)

Module Hashing.

(** An object handed to [register_hashing_handler].  [is_HashingBase] is
    [isinstance(instance, HashingBase)], [get_name] what [instance.get_name()]
    returns ([None] is Python's [None]) and [ident] the object's identity,
    which tells two instances of one name apart. *)
Record instance : Type := Instance {
  is_HashingBase : bool;
  get_name : option string;
  ident : nat
}.

#[global] Instance instance_eq_dec : EqDecision instance.
Proof. solve_decision. Defined.

Inductive error : Type :=
  | InvalidHashingHandlerTypeError
  | InvalidHashingHandlerNameError
  | DuplicatedHashingHandlerError
  | HashingHandlerNotFoundError
  | KeyError.

(** A line written by [print_warning]: the instance that is replaced and
    the one that replaces it. *)
Record warning : Type := Warning {
  old_instance : instance;
  new_instance : instance
}.

(** [HashingManager]: the [_hashing_handlers] context and the warnings
    printed so far. *)
Record HashingManager : Type := Manager {
  _hashing_handlers : gmap string instance;
  printed : list warning
}.

(** [HashingManager.__init__] *)
Definition init : HashingManager :=
  {| _hashing_handlers := ∅; printed := [] |}.

(** [name in self._hashing_handlers.keys()] *)
Definition contains (name : string) : method HashingManager error bool :=
  self <- read ;;
  ret (bool_decide (name ∈ dom (_hashing_handlers self))).

(** [self._hashing_handlers[name]] *)
Definition getitem (name : string) : method HashingManager error instance :=
  self <- read ;;
  match _hashing_handlers self !! name with
  | Some found => ret found
  | None => raise KeyError
  end.

(** [self._hashing_handlers[name] = value] *)
Definition setitem (name : string) (value : instance)
    : method HashingManager error unit :=
  self <- read ;;
  put {| _hashing_handlers := <[name := value]> (_hashing_handlers self);
           printed := printed self |}.

Definition print_warning (old new : instance)
    : method HashingManager error unit :=
  self <- read ;;
  put {| _hashing_handlers := _hashing_handlers self;
           printed := printed self ++ [Warning old new] |}.

(** [instance.get_name() is None or len(instance.get_name().strip()) == 0] *)
Definition invalid_name (inst : instance) : bool :=
  match get_name inst with
  | None => true
  | Some name => (len (strip name) =? 0)%nat
  end.

Definition register_hashing_handler (inst : instance)
    (options : gmap string pyval) : method HashingManager error unit :=
  if negb (is_HashingBase inst) then raise InvalidHashingHandlerTypeError
  else
    match get_name inst with
    | None => raise InvalidHashingHandlerNameError
    | Some name =>
        if (len (strip name) =? 0)%nat then raise InvalidHashingHandlerNameError
        else
          present <- contains name ;;
          (if present : bool then
             let replace := options_get options "replace" (PyBool false) in
             if negb (is_True replace) then raise DuplicatedHashingHandlerError
             else
               old <- getitem name ;;
               print_warning old inst
           else ret tt) ;;
          setitem name inst
    end.

Definition _get_hashing_handler (name : string)
    : method HashingManager error instance :=
  present <- contains name ;;
  if negb present then raise HashingHandlerNotFoundError
  else getitem name.

(** The states a manager can be in: the fresh one, and those a
    registration that returned leaves. *)
Inductive reachable : HashingManager -> Prop :=
  | reachable_init : reachable init
  | reachable_register self inst options self' :
      reachable self ->
      register_hashing_handler inst options self = (Return tt, self') ->
      reachable self'.

(** The name of the instance is [None] or made of white space only. *)
Definition blank_name (inst : instance) : Prop :=
  get_name inst = None ∨ ∃ s, get_name inst = Some s ∧ all_space s = true.

(** What a registration does, by cases: the result and the state left. *)
Inductive registration (self : HashingManager) (inst : instance)
    (options : gmap string pyval)
    : outcome error unit → HashingManager → Prop :=
  | reg_type :
      is_HashingBase inst = false →
      registration self inst options
        (Raise InvalidHashingHandlerTypeError) self
  | reg_name :
      is_HashingBase inst = true → invalid_name inst = true →
      registration self inst options
        (Raise InvalidHashingHandlerNameError) self
  | reg_duplicated name :
      is_HashingBase inst = true → get_name inst = Some name →
      all_space name = false →
      name ∈ dom (_hashing_handlers self) →
      is_True (options_get options "replace" (PyBool false)) = false →
      registration self inst options
        (Raise DuplicatedHashingHandlerError) self
  | reg_replaced name old :
      is_HashingBase inst = true → get_name inst = Some name →
      all_space name = false →
      _hashing_handlers self !! name = Some old →
      is_True (options_get options "replace" (PyBool false)) = true →
      registration self inst options (Return tt)
        {| _hashing_handlers := <[name := inst]> (_hashing_handlers self);
           printed := printed self ++ [Warning old inst] |}
  | reg_inserted name :
      is_HashingBase inst = true → get_name inst = Some name →
      all_space name = false →
      name ∉ dom (_hashing_handlers self) →
      registration self inst options (Return tt)
        {| _hashing_handlers := <[name := inst]> (_hashing_handlers self);
           printed := printed self |}.

(** Every entry holds a hashing handler under its own name, which is not
    blank. *)
Definition well_keyed (self : HashingManager) : Prop :=
  ∀ name inst, _hashing_handlers self !! name = Some inst →
    is_HashingBase inst = true ∧ get_name inst = Some name
    ∧ all_space name = false.

End Hashing.

(** ** The validator services: [pyrin/validator/services.py] *)

Module Validator.

(** The options the services read; each defaults to [False]. *)
Record options : Type := Options {
  replace : bool;
  force : bool;
  lazy : bool
}.

(** An object handed to [register_validator].  [is_validator] is
    [isinstance(instance, AbstractValidatorBase)]; [validate] is [None] when
    the value is accepted and the message of the [ValidationError] it raises
    otherwise. *)
Record instance : Type := Instance {
  is_validator : bool;
  domain : string;
  name : string;
  validate : pyval -> options -> option string
}.

Inductive error : Type :=
  | InvalidValidatorTypeError
  | DuplicatedValidatorError
  | ValidatorNotFoundError
  | ValidationError (data : gmap string string).

(** Modelled from the spec: the validator manager, the component behind
    [ValidatorPackage.COMPONENT_NAME] that every service of
    [pyrin/validator/services.py] delegates to, is not among the sources.
    It keeps, per domain, a mapping of name to validator (the composite key
    (domain, name) of the domain-scoped registry). *)
Record ValidatorManager : Type := Manager {
  _validators : gmap string (gmap string instance)
}.

Definition init : ValidatorManager := {| _validators := ∅ |}.

(** Modelled from the spec: the manager's [register_validator], with the
    rules of the registry under the key (domain, name) and the two errors
    the service documents. *)
Definition manager_register_validator (inst : instance) (opts : options)
    : method ValidatorManager error unit :=
  if negb (is_validator inst) then raise InvalidValidatorTypeError
  else
    self <- read ;;
    let domain_validators :=
      match _validators self !! domain inst with
      | Some registered => registered
      | None => ∅
      end in
    if bool_decide (name inst ∈ dom domain_validators) && negb (replace opts)
    then raise DuplicatedValidatorError
    else
      put {| _validators :=
               <[domain inst := <[name inst := inst]> domain_validators]>
                 (_validators self) |}.

(** Modelled from the spec: the manager's [get_domain_validators], the
    mapping of name to validator of the domain; for a domain that is not
    known it is the empty mapping, not an error. *)
Definition manager_get_domain_validators (dom_key : string)
    : method ValidatorManager error (gmap string instance) :=
  self <- read ;;
  match _validators self !! dom_key with
  | Some domain_validators => ret domain_validators
  | None => ret ∅
  end.

(** Modelled from the spec: the manager's [get_validator]; as the service
    documents, "it returns None if no validator found for given name". *)
Definition manager_get_validator (dom_key name_key : string)
    : method ValidatorManager error (option instance) :=
  domain_validators <- manager_get_domain_validators dom_key ;;
  ret (domain_validators !! name_key).

(** Modelled from the spec: the manager's [validate_field].  It looks the
    validator up; without one it raises when [force] is set and returns
    [False] otherwise; with one it delegates and returns [True]. *)
Definition manager_validate_field (dom_key name_key : string) (value : pyval)
    (opts : options) : method ValidatorManager error bool :=
  found <- manager_get_validator dom_key name_key ;;
  match found with
  | None => if force opts then raise ValidatorNotFoundError else ret false
  | Some validator =>
      match validate validator value opts with
      | Some message => raise (ValidationError {[name_key := message]})
      | None => ret true
      end
  end.

(** What the loop of [validate_dict] has gathered: the messages of the
    values found invalid and the entries no validator was found for. *)
Record gathered : Type := Gathered {
  cumulative_errors : gmap string string;
  unavailable : gmap string pyval
}.

(** Modelled from the spec: the loop of the manager's [validate_dict] over
    the items of the dict, in their order.  A [ValidationError] is kept for
    the cumulative error when [lazy] is set and raised at once otherwise;
    any other error is raised at once. *)
Fixpoint validate_items (dom_key : string) (items : list (string * pyval))
    (opts : options) (acc : gathered)
    : method ValidatorManager error gathered :=
  match items with
  | [] => ret acc
  | (key, value) :: rest =>
      fun self =>
        match manager_validate_field dom_key key value opts self with
        | (Return found, self') =>
            validate_items dom_key rest opts
              {| cumulative_errors := cumulative_errors acc;
                 unavailable :=
                   if found : bool then unavailable acc
                   else <[key := value]> (unavailable acc) |}
              self'
        | (Raise (ValidationError data), self') =>
            if lazy opts then
              validate_items dom_key rest opts
                {| cumulative_errors := data ∪ cumulative_errors acc;
                   unavailable := unavailable acc |}
                self'
            else (Raise (ValidationError data), self')
        | (Raise e, self') => (Raise e, self')
        end
  end.

(** Modelled from the spec: the manager's [validate_dict].  It raises one
    [ValidationError] with the gathered messages when there are any, and
    returns the entries without a validator otherwise. *)
Definition manager_validate_dict (dom_key : string)
    (data : list (string * pyval)) (opts : options)
    : method ValidatorManager error (gmap string pyval) :=
  result <- validate_items dom_key data opts
              {| cumulative_errors := ∅; unavailable := ∅ |} ;;
  if bool_decide (cumulative_errors result = ∅) then ret (unavailable result)
  else raise (ValidationError (cumulative_errors result)).

(** The services: each hands its arguments to the component. *)
Definition register_validator (inst : instance) (opts : options)
    : method ValidatorManager error unit :=
  manager_register_validator inst opts.

Definition get_domain_validators (dom_key : string)
    : method ValidatorManager error (gmap string instance) :=
  manager_get_domain_validators dom_key.

Definition get_validator (dom_key name_key : string)
    : method ValidatorManager error (option instance) :=
  manager_get_validator dom_key name_key.

Definition validate_field (dom_key name_key : string) (value : pyval)
    (opts : options) : method ValidatorManager error bool :=
  manager_validate_field dom_key name_key value opts.

Definition validate_dict (dom_key : string) (data : list (string * pyval))
    (opts : options) : method ValidatorManager error (gmap string pyval) :=
  manager_validate_dict dom_key data opts.

(** The states of the manager, with the validators registered on the way
    to them, in the order of their registration: the fresh manager has
    none, and a registration that returns adds its validator. *)
Inductive registrations : ValidatorManager → list instance → Prop :=
  | registrations_init : registrations init []
  | registrations_register self log inst opts self' :
      registrations self log →
      register_validator inst opts self = (Return tt, self') →
      registrations self' (log ++ [inst]).

(** Of the validators registered, the one registered last under
    (domain, name). *)
Definition latest (log : list instance) (dom_key name_key : string)
    : option instance :=
  last (filter (fun inst => domain inst = dom_key ∧ name inst = name_key)
               log).

(** A validator is registered under (domain, name). *)
Definition registered (self : ValidatorManager) (dom_key name_key : string)
    (validator : instance) : Prop :=
  ∃ domain_validators,
    _validators self !! dom_key = Some domain_validators
    ∧ domain_validators !! name_key = Some validator.


(** The validator kept under (domain, name), if any. *)
Definition kept (self : ValidatorManager) (dom_key name_key : string)
    : option instance :=
  match _validators self !! dom_key with
  | Some domain_validators => domain_validators !! name_key
  | None => None
  end.

End Validator.

(** ** Packages and their loading order: [pyrin/packaging] *)

Module Packaging.

(** [Package] of [pyrin/packaging/context.py]: the name of the package and
    the names of the packages it has to be loaded after. *)
Record Package : Type := MkPackage {
  NAME : string;
  DEPENDS : list string
}.

Inductive error : Type :=
  | CyclicDependencyError (unresolved : list string)
  | UnitLoadError (unit_name : string).

(** [a] declares [b] in its [DEPENDS]. *)
Definition depends_on (units : list Package) (a b : string) : Prop :=
  ∃ u, u ∈ units ∧ NAME u = a ∧ b ∈ DEPENDS u.

(** The dependency graph has no cycle: no unit reaches itself along
    declared dependencies. *)
Definition acyclic (units : list Package) : Prop :=
  ∀ a, ¬ tc (depends_on units) a a.

(** Every declared dependency names a reserved or a declared unit. *)
Definition closed (reserved : list string) (units : list Package) : Prop :=
  ∀ u d, u ∈ units → d ∈ DEPENDS u → d ∈ reserved ++ (NAME <$> units).

(** All the [DEPENDS] of the unit are placed in the order. *)
Definition ready (order : list string) (u : Package) : bool :=
  forallb (fun d => bool_decide (d ∈ order)) (DEPENDS u).

(** Modelled from the spec: the loader of [pyrin/packaging] is not among
    the sources.  [select] is its selection step: the first unit, in
    declaration order, whose [DEPENDS] are all placed, and the units that
    stay unplaced, in their order. *)
Fixpoint select (order : list string) (unplaced : list Package)
    : option (Package * list Package) :=
  match unplaced with
  | [] => None
  | u :: rest =>
      if ready order u then Some (u, rest)
      else
        match select order rest with
        | Some (chosen, rest') => Some (chosen, u :: rest')
        | None => None
        end
  end.

(** Modelled from the spec: the selection repeated, each round placing the
    selected unit at the end of the order, until no unit is ready or the
    rounds are used up; there are as many rounds as units. *)
Fixpoint place (rounds : nat) (order : list string) (unplaced : list Package)
    : list string * list Package :=
  match rounds with
  | 0 => (order, unplaced)
  | S rounds' =>
      match select order unplaced with
      | Some (chosen, rest) => place rounds' (order ++ [NAME chosen]) rest
      | None => (order, unplaced)
      end
  end.

Section Loader.

(** The two reserved units, placed ahead of every declared one. *)
Variables first second : string.

(** Modelled from the spec: the order the loader computes, or the
    [CyclicDependencyError] naming the units left unplaced. *)
Definition load_order (units : list Package) : outcome error (list string) :=
  match place (length units) [first; second] units with
  | (order, []) => Return order
  | (_, unresolved) => Raise (CyclicDependencyError (NAME <$> unresolved))
  end.

(** The callbacks of the hosting application act on its state [World];
    [None] is a callback that raised. *)
Context {World : Type}.
Variable load : string -> World -> option World.
Variable notify_loaded : string -> World -> option World.

Inductive event : Type :=
  | Load (unit_name : string)
  | NotifyLoaded (unit_name : string).

(** The state of a run: the application's state and the calls made. *)
Record run : Type := Run {
  world : World;
  calls : list event
}.

Definition call_load (unit_name : string) : method run error unit :=
  fun r =>
    let r' := {| world := world r; calls := calls r ++ [Load unit_name] |} in
    match load unit_name (world r) with
    | Some w => (Return tt, {| world := w; calls := calls r' |})
    | None => (Raise (UnitLoadError unit_name), r')
    end.

Definition call_notify_loaded (unit_name : string) : method run error unit :=
  fun r =>
    let r' :=
      {| world := world r; calls := calls r ++ [NotifyLoaded unit_name] |} in
    match notify_loaded unit_name (world r) with
    | Some w => (Return tt, {| world := w; calls := calls r' |})
    | None => (Raise (UnitLoadError unit_name), r')
    end.

(** Modelled from the spec: for each unit of the order, [load] and then
    [notify_loaded]. *)
Fixpoint load_all (order : list string) : method run error unit :=
  match order with
  | [] => ret tt
  | unit_name :: rest =>
      call_load unit_name ;;
      call_notify_loaded unit_name ;;
      load_all rest
  end.

(** Modelled from the spec: the loader.  The order is computed first; the
    callbacks run only once it is. *)
Definition load_packages (units : list Package)
    : method run error (list string) :=
  match load_order units with
  | Raise e => raise e
  | Return order => load_all order ;; ret order
  end.

End Loader.

Arguments run : clear implicits.

(** A walk along a relation from [x]: each element is related to the
    next. *)
Fixpoint walk {A : Type} (R : relation A) (x : A) (p : list A) : Prop :=
  match p with
  | [] => True
  | y :: p' => R x y ∧ walk R y p'
  end.

(** In the order, every unit stands after each of its [DEPENDS]. *)
Definition dependencies_first (units : list Package) (order : list string)
    : Prop :=
  ∀ u j, u ∈ units → order !! j = Some (NAME u) →
    ∀ d, d ∈ DEPENDS u → ∃ i, i < j ∧ order !! i = Some d.

(** Ties go by declaration: where a unit is placed, every unit declared
    before it is placed already or still waits for one of its
    [DEPENDS]. *)
Definition declaration_breaks_ties (units : list Package)
    (order : list string) : Prop :=
  ∀ i j u v p, i < j → units !! i = Some u → units !! j = Some v →
    order !! p = Some (NAME v) →
    NAME u ∈ take p order ∨ ∃ d, d ∈ DEPENDS u ∧ d ∉ take p order.

(** What holds between the rounds of [place]: the order is the reserved
    units and then declared ones, the unplaced units are the other declared
    ones in their declaration order, and the order placed so far puts
    dependencies first and breaks ties by declaration. *)
Definition placing (first second : string) (units : list Package)
    (order : list string) (unplaced : list Package) : Prop :=
  (∃ added, order = [first; second] ++ added
            ∧ added ++ (NAME <$> unplaced) ≡ₚ NAME <$> units)
  ∧ unplaced `sublist_of` units
  ∧ dependencies_first units order
  ∧ declaration_breaks_ties units order.

(** Some unit reaches itself along declared dependencies. *)
Definition cyclic (units : list Package) : Prop :=
  ∃ a, tc (depends_on units) a a.

End Packaging.

(** ** Hashing through the manager: [generate_hash] and [is_match] *)

Module HashingCalls.
Import Hashing.

Section Handlers.

(** [HashingBase] is not among the sources: the two methods of a handler
    the manager calls are taken as they come.  [Result] is what a call of
    [generate_hash] yields, [Verdict] what a call of [is_match] yields. *)
Context {Text Hashed Result Verdict : Type}.
Variable handler_generate_hash :
  instance → Text → gmap string pyval → Result.
Variable handler_is_match : instance → Text → Hashed → Verdict.

Definition generate_hash (handler_name : string) (text : Text)
    (options : gmap string pyval) : method HashingManager error Result :=
  handler <- _get_hashing_handler handler_name ;;
  ret (handler_generate_hash handler text options).

Definition is_match (handler_name : string) (text : Text)
    (full_hashed_value : Hashed) : method HashingManager error Verdict :=
  handler <- _get_hashing_handler handler_name ;;
  ret (handler_is_match handler text full_hashed_value).

End Handlers.

End HashingCalls.

(** ** File names and patterns: [pyrin/utils/file.py] *)

Module FileUtils.

(** [str.lower] on the code points below 256: the letters [A]-[Z] and the
    capital letters of Latin-1 move up by 32. *)
Definition lower_char (c : ascii) : ascii :=
  let n := nat_of_ascii c in
  if (((65 <=? n) && (n <=? 90)) || ((192 <=? n) && (n <=? 214))
      || ((216 <=? n) && (n <=? 222)))%nat
  then ascii_of_nat (n + 32)
  else c.

Fixpoint lower (s : string) : string :=
  match s with
  | EmptyString => EmptyString
  | String c s' => String (lower_char c) (lower s')
  end.

(** [s.endswith(suffix)]: the suffix is the string or ends its tail. *)
Fixpoint endswith (s suffix : string) : bool :=
  (s =? suffix)%string
  || match s with
     | EmptyString => false
     | String _ s' => endswith s' suffix
     end.

(** The loop of [is_match] over the patterns. *)
Fixpoint match_any (source : string) (patterns : list string) : bool :=
  match patterns with
  | [] => false
  | pattern :: rest =>
      if endswith (lower source) (lower pattern) then true
      else match_any source rest
  end.

Definition is_match (source : string) (patterns : list string) : bool :=
  if (length patterns <=? 0)%nat then true
  else match_any source patterns.

End FileUtils.

(** ** The request context: [pyrin/security/session/manager.py] *)

Module Session.

(** What a request context holds: a dict of values, or a value that is no
    dict. *)
Inductive object : Type :=
  | Plain (v : pyval)
  | Dict (d : gmap string pyval).

Inductive error : Type :=
  | InvalidRequestContextKeyNameError
  | AttributeError.

(** The current request, with its [context]. *)
Record CoreRequest : Type := Request {
  context : gmap string object
}.

(** [d.get(key, default)] *)
Definition dict_get (d : gmap string object) (key : string)
    (default : object) : object :=
  match d !! key with
  | Some v => v
  | None => default
  end.

Definition get_current_request : method CoreRequest error CoreRequest :=
  read.

Definition get_current_request_context
    : method CoreRequest error (gmap string object) :=
  request <- get_current_request ;;
  ret (context request).

Definition get_current_user : method CoreRequest error object :=
  current <- get_current_request_context ;;
  ret (dict_get current "user" (Plain PyNone)).

(** [key] is [None] when it is Python's [None]. *)
Definition add_request_context (key : option string) (value : object)
    : method CoreRequest error unit :=
  match key with
  | None => raise InvalidRequestContextKeyNameError
  | Some name =>
      if (len (strip name) =? 0)%nat
      then raise InvalidRequestContextKeyNameError
      else
        current <- get_current_request_context ;;
        put {| context := <[name := value]> current |}
  end.

Definition get_current_payload : method CoreRequest error object :=
  current <- get_current_request_context ;;
  ret (dict_get current "payload" (Dict ∅)).

(** [self.get_current_payload().get('is_fresh', False)]: a payload that
    is no dict has no [get]. *)
Definition is_fresh : method CoreRequest error pyval :=
  payload <- get_current_payload ;;
  match payload with
  | Dict d => ret (options_get d "is_fresh" (PyBool false))
  | Plain _ => raise AttributeError
  end.

End Session.

(** ** Entities and dicts: [pyrin/database/model/base.py] *)

Module Model.

Inductive error : Type :=
  | ColumnNotExistedError (column : string).

(** An entity as [from_dict] and [to_dict] see it: the names
    [all_columns()] and [exposed_columns()] return for its type, and what
    [getattr] reads from it. *)
Record entity : Type := Entity {
  all_columns : list string;
  exposed_columns : list string;
  getattr : string → pyval
}.

(** [setattr(self, key, value)] *)
Definition setattr (key : string) (value : pyval) (self : entity) : entity :=
  {| all_columns := all_columns self;
     exposed_columns := exposed_columns self;
     getattr := fun name =>
       if bool_decide (name = key) then value else getattr self name |}.

(** [v is False] *)
Definition is_False (v : pyval) : bool :=
  match v with
  | PyBool false => true
  | _ => false
  end.

(** The loop of [from_dict] over the items of [kwargs], in their order. *)
Fixpoint from_dict_items (silent_on_invalid_column : pyval)
    (columns : list string) (items : list (string * pyval))
    : method entity error unit :=
  match items with
  | [] => ret tt
  | (key, value) :: rest =>
      (if bool_decide (key ∈ columns) then
         self <- read ;;
         put (setattr key value self)
       else if is_False silent_on_invalid_column
         then raise (ColumnNotExistedError key)
         else ret tt) ;;
      from_dict_items silent_on_invalid_column columns rest
  end.

Definition from_dict (silent_on_invalid_column : pyval)
    (kwargs : list (string * pyval)) : method entity error unit :=
  self <- read ;;
  from_dict_items silent_on_invalid_column (all_columns self) kwargs.

(** [to_dict]: the dict filled column by column. *)
Definition to_dict (self : entity) : gmap string pyval :=
  foldl (fun result col => <[col := getattr self col]> result)
        ∅ (exposed_columns self).

(** The values [from_dict] has to leave in the attributes: the items whose
    key is a column, written in their order. *)
Fixpoint written (columns : list string) (items : list (string * pyval))
    (self : entity) : entity :=
  match items with
  | [] => self
  | (key, value) :: rest =>
      written columns rest
        (if bool_decide (key ∈ columns) then setattr key value self
         else self)
  end.

End Model.

(** ** The cache of column names: [pyrin/database/model/base.py] *)

Module ColumnCache.

Inductive error : Type :=
  | AttributeError.

(** The classes of the entities, by name.  [_all_columns] holds, for each
    class that has the attribute [_all_columns] in its own [__dict__], the
    [DTO] it refers to, from types to column names; [asked] lists the types
    the mapper was asked for, in order. *)
Record classes : Type := Classes {
  _all_columns : gmap string (gmap string (list string));
  asked : list string
}.

Definition no_cache : classes := {| _all_columns := ∅; asked := [] |}.

(** The lookup of a class attribute: the first class of the resolution
    order that has it, with what it holds. *)
Fixpoint lookup_along (order : list string)
    (attrs : gmap string (gmap string (list string)))
    : option (string * gmap string (list string)) :=
  match order with
  | [] => None
  | c :: rest =>
      match attrs !! c with
      | Some dto => Some (c, dto)
      | None => lookup_along rest attrs
      end
  end.

Section Mapper.

(** [bases cls] is [inspect.getmro(cls)] after [cls] itself; the keys of
    the column properties of [class_mapper(cls)] are [mapped_columns cls].
    Both come from outside the module. *)
Variable bases : string → list string.
Variable mapped_columns : string → list string.

(** [getattr(self, '_all_columns', None)], for [self] of type [cls]. *)
Definition getattr_all_columns (cls : string)
    : method classes error (option (string * gmap string (list string))) :=
  st <- read ;;
  ret (lookup_along (cls :: bases cls) (_all_columns st)).

Definition _set_all_columns (cls : string) (columns : list string)
    : method classes error unit :=
  found <- getattr_all_columns cls ;;
  (match found with
   | None =>
       st <- read ;;
       put {| _all_columns := <[cls := ∅]> (_all_columns st);
              asked := asked st |}
   | Some _ => ret tt
   end) ;;
  held <- getattr_all_columns cls ;;
  match held with
  | None => raise AttributeError
  | Some (owner, dto) =>
      st <- read ;;
      put {| _all_columns :=
               <[owner := <[cls := columns]> dto]> (_all_columns st);
             asked := asked st |}
  end.

Definition _get_all_columns (cls : string)
    : method classes error (option (list string)) :=
  columns <- getattr_all_columns cls ;;
  match columns with
  | Some (_, dto) => ret (dto !! cls)
  | None => ret None
  end.

(** The comprehension over [class_mapper(type(self))]. *)
Definition ask_mapper (cls : string) : method classes error (list string) :=
  st <- read ;;
  put {| _all_columns := _all_columns st; asked := asked st ++ [cls] |} ;;
  ret (mapped_columns cls).

Definition all_columns (cls : string)
    : method classes error (option (list string)) :=
  columns <- _get_all_columns cls ;;
  (match columns with
   | None =>
       computed <- ask_mapper cls ;;
       _set_all_columns cls computed
   | Some _ => ret tt
   end) ;;
  _get_all_columns cls.

(** Every name kept for a type is what the mapper gives for it. *)
Definition consistent (st : classes) : Prop :=
  ∀ owner dto cls columns,
    _all_columns st !! owner = Some dto → dto !! cls = Some columns →
    columns = mapped_columns cls.

(** The names of the type are in the cache. *)
Definition cached (cls : string) (st : classes) : Prop :=
  ∃ owner dto,
    lookup_along (cls :: bases cls) (_all_columns st) = Some (owner, dto)
    ∧ is_Some (dto !! cls).

(** The states the classes are in after calls of [all_columns]. *)
Inductive reachable : classes → Prop :=
  | reachable_no_cache : reachable no_cache
  | reachable_all_columns st cls result st' :
      reachable st → all_columns cls st = (result, st') → reachable st'.

(** Single inheritance: a resolution order names no class twice, and the
    resolution order of a base is the end of that of the class. *)
Definition linear : Prop :=
  ∀ cls,
    NoDup (cls :: bases cls)
    ∧ ∀ base, base ∈ bases cls →
        ∃ between, bases cls = between ++ base :: bases base.

End Mapper.

End ColumnCache.

(** ** The schema items of a column: [pyrin/database/orm/sql/schema/base.py] *)

Module Schema.

(** What a keyword of a column is given: nothing ([None]), a callable, an
    instance of one of [LIST_TYPES] with its items, or another value. *)
Inductive setting : Type :=
  | NoneValue
  | CallableValue (id : nat)
  | ListValue (items : list pyval)
  | PlainValue (v : pyval).

(** [x is None] *)
Definition is_None (x : setting) : bool :=
  match x with
  | NoneValue | PlainValue PyNone => true
  | _ => false
  end.

(** [callable(x)] *)
Definition callable (x : setting) : bool :=
  match x with
  | CallableValue _ => true
  | _ => false
  end.

(** [isinstance(x, LIST_TYPES) and len(x) > 0] *)
Definition is_filled_list (x : setting) : bool :=
  match x with
  | ListValue items => (0 <? length items)%nat
  | _ => false
  end.

(** [bool(x)] *)
Definition truth (x : setting) : bool :=
  match x with
  | NoneValue => false
  | CallableValue _ => true
  | ListValue items => (0 <? length items)%nat
  | PlainValue v => truthy v
  end.

(** [x or y] *)
Definition or_else (x y : setting) : setting := if truth x then x else y.

Inductive error : Type :=
  | CheckConstraintConflictError
  | InvalidCheckConstraintError.

(** The attributes of a [CoreColumn] that [_get_schema_items] reads. *)
Record CoreColumn : Type := Column {
  name : option string;
  type_ : option string;
  primary_key : pyval;
  min_value : setting;
  max_value : setting;
  check_in : setting;
  check_not_in : setting
}.

Section Constraints.

(** The constraints are built outside the module, by
    [pyrin.utils.sqlalchemy]; the custom items are those of the subclass. *)
Context {Item : Type}.
Variable range_check_constraint : option string → setting → setting → Item.
Variable check_constraint : option string → setting → Item.
Variable _get_custom_schema_items : CoreColumn → list Item.

(** [self.name in (None, '')] *)
Definition unnamed (self : CoreColumn) : bool :=
  match name self with
  | None => true
  | Some column_name => (column_name =? "")%string
  end.

(** [self.type is None] *)
Definition untyped (self : CoreColumn) : bool :=
  match type_ self with
  | None => true
  | Some _ => false
  end.

Definition _get_schema_items (self : CoreColumn)
    : outcome error (list Item) :=
  let custom_items := _get_custom_schema_items self in
  if unnamed self || untyped self then Return custom_items
  else if negb (is_True (primary_key self)) then
    let minimum :=
      if negb (is_None (min_value self)) && negb (callable (min_value self))
      then min_value self else NoneValue in
    let maximum :=
      if negb (is_None (max_value self)) && negb (callable (max_value self))
      then max_value self else NoneValue in
    let custom_items :=
      if negb (is_None minimum) || negb (is_None maximum)
      then custom_items
           ++ [range_check_constraint (name self) minimum maximum]
      else custom_items in
    if negb (is_None (check_in self)) && negb (is_None (check_not_in self))
    then Raise CheckConstraintConflictError
    else if negb (is_None (check_in self))
            && negb (is_filled_list (check_in self))
    then Raise InvalidCheckConstraintError
    else if negb (is_None (check_not_in self))
            && negb (is_filled_list (check_not_in self))
    then Raise InvalidCheckConstraintError
    else if negb (is_None (check_in self))
            || negb (is_None (check_not_in self))
    then
      let values := or_else (check_in self) (check_not_in self) in
      Return (custom_items ++ [check_constraint (name self) values])
    else Return custom_items
  else Return custom_items.

(** The bound the range constraint is given for a keyword: the value,
    unless it is [None] or a callable. *)
Definition bound (x : setting) : setting :=
  if negb (is_None x) && negb (callable x) then x else NoneValue.

(** The column is one whose keywords are looked at: it has a name and a
    type and is no primary key. *)
Definition checked (self : CoreColumn) : Prop :=
  unnamed self = false ∧ untyped self = false
  ∧ primary_key self ≠ PyBool true.

End Constraints.

End Schema.

(** ** Sample inputs *)

Module Samples.

(** Two hashing handlers of one name, an object that is no handler, and a
    manager that holds the first handler. *)
Definition bcrypt_first : Hashing.instance :=
  {| Hashing.is_HashingBase := true; Hashing.get_name := Some "bcrypt";
     Hashing.ident := 1 |}.

Definition bcrypt_second : Hashing.instance :=
  {| Hashing.is_HashingBase := true; Hashing.get_name := Some "bcrypt";
     Hashing.ident := 2 |}.

Definition not_a_handler : Hashing.instance :=
  {| Hashing.is_HashingBase := false; Hashing.get_name := Some "  ";
     Hashing.ident := 3 |}.

Definition nameless_handler : Hashing.instance :=
  {| Hashing.is_HashingBase := true; Hashing.get_name := Some "  ";
     Hashing.ident := 4 |}.

Definition with_bcrypt : Hashing.HashingManager :=
  {| Hashing._hashing_handlers := {[ "bcrypt" := bcrypt_first ]};
     Hashing.printed := [] |}.

Definition replace_given (v : pyval) : gmap string pyval :=
  {[ "replace" := v ]}.

(** A validator that accepts the integers and a manager that holds it
    under the domain ["user"] and the name ["age"]. *)
Definition age_validator : Validator.instance :=
  {| Validator.is_validator := true;
     Validator.domain := "user";
     Validator.name := "age";
     Validator.validate := fun value _ =>
       match value with
       | PyInt _ => None
       | _ => Some "The provided value for [age] must be an integer."
       end |}.

Definition name_validator : Validator.instance :=
  {| Validator.is_validator := true;
     Validator.domain := "user";
     Validator.name := "name";
     Validator.validate := fun value _ =>
       match value with
       | PyStr _ => None
       | _ => Some "The provided value for [name] must be a string."
       end |}.

Definition defaults : Validator.options :=
  {| Validator.replace := false; Validator.force := false;
     Validator.lazy := false |}.

Definition lazily : Validator.options :=
  {| Validator.replace := false; Validator.force := false;
     Validator.lazy := true |}.

Definition forced : Validator.options :=
  {| Validator.replace := false; Validator.force := true;
     Validator.lazy := false |}.


Definition user_validators : Validator.ValidatorManager :=
  {| Validator._validators :=
       {[ "user" := <["name" := name_validator]> {[ "age" := age_validator ]} ]} |}.

(** A dict whose two values are both refused. *)
Definition bad_user : list (string * pyval) :=
  [("age", PyStr "old"); ("name", PyInt 7)].


(** The units of the specification's example, units with a cycle, and
    units of which two are ready at the start. *)
Definition db_api : list Packaging.Package :=
  [ {| Packaging.NAME := "db"; Packaging.DEPENDS := [] |};
    {| Packaging.NAME := "api"; Packaging.DEPENDS := ["db"] |} ].

Definition a_b_cycle : list Packaging.Package :=
  [ {| Packaging.NAME := "a"; Packaging.DEPENDS := ["b"] |};
    {| Packaging.NAME := "b"; Packaging.DEPENDS := ["a"] |};
    {| Packaging.NAME := "c"; Packaging.DEPENDS := [] |} ].

Definition api_web_db : list Packaging.Package :=
  [ {| Packaging.NAME := "api"; Packaging.DEPENDS := ["db"] |};
    {| Packaging.NAME := "web"; Packaging.DEPENDS := [] |};
    {| Packaging.NAME := "db"; Packaging.DEPENDS := [] |} ].

(** Callbacks that count the calls made to them and never raise. *)
Definition counting (unit_name : string) (count : nat) : option nat :=
  Some (S count).

Definition fresh_run : Packaging.run nat :=
  {| Packaging.world := 0; Packaging.calls := [] |}.

End Samples.

(** ** More sample inputs *)

Module MoreSamples.

(** The manager after the second [bcrypt] handler has replaced the
    first. *)
Definition replaced_bcrypt : Hashing.HashingManager :=
  {| Hashing._hashing_handlers := {[ "bcrypt" := Samples.bcrypt_second ]};
     Hashing.printed :=
       [Hashing.Warning Samples.bcrypt_first Samples.bcrypt_second] |}.

(** Handler methods that tell which handler was called. *)
Definition tagged_hash (inst : Hashing.instance) (text : string)
    (options : gmap string pyval) : nat * string :=
  (Hashing.ident inst, text).

Definition tagged_match (inst : Hashing.instance) (text : string)
    (hashed : nat * string) : bool :=
  bool_decide (hashed = (Hashing.ident inst, text)).

(** A request whose context holds a user and a payload. *)
Definition signed_in : Session.CoreRequest :=
  {| Session.context :=
       <["payload" := Session.Dict {[ "is_fresh" := PyBool true ]}]>
         {[ "user" := Session.Plain (PyInt 7) ]} |}.

Definition anonymous : Session.CoreRequest :=
  {| Session.context := ∅ |}.

(** An entity with three columns, of which [password] is not exposed. *)
Definition user_entity : Model.entity :=
  {| Model.all_columns := ["id"; "name"; "password"];
     Model.exposed_columns := ["id"; "name"];
     Model.getattr := fun _ => PyNone |}.

(** Entity classes: [Admin] derives from [User], which derives from
    [Base]; [Both] derives from [Left] and from [Right]. *)
Definition entity_bases (cls : string) : list string :=
  if bool_decide (cls = "Admin") then ["User"; "Base"]
  else if bool_decide (cls = "User") then ["Base"]
  else [].

Definition mixed_bases (cls : string) : list string :=
  if bool_decide (cls = "Both") then ["Left"; "Right"] else [].

Definition entity_columns (cls : string) : list string :=
  if bool_decide (cls = "Admin") then ["id"; "name"; "level"]
  else if bool_decide (cls = "User") then ["id"; "name"]
  else ["id"].

(** The classes after [all_columns] on a [User]. *)
Definition user_asked : ColumnCache.classes :=
  {| ColumnCache._all_columns := {[ "User" := {[ "User" := ["id"; "name"] ]} ]};
     ColumnCache.asked := ["User"] |}.

(** Constraints that record what they are built from, and columns: one
    with both check keywords, and the same as a primary key. *)
Inductive sample_item : Type :=
  | RangeCheck (column : option string) (minimum maximum : Schema.setting)
  | ValueCheck (column : option string) (values : Schema.setting).

Definition no_custom_items (self : Schema.CoreColumn) : list sample_item :=
  [].

Definition conflicting : Schema.CoreColumn :=
  {| Schema.name := Some "status"; Schema.type_ := Some "Integer";
     Schema.primary_key := PyBool false;
     Schema.min_value := Schema.NoneValue;
     Schema.max_value := Schema.NoneValue;
     Schema.check_in := Schema.ListValue [PyInt 1];
     Schema.check_not_in := Schema.ListValue [PyInt 2] |}.

Definition conflicting_key : Schema.CoreColumn :=
  {| Schema.name := Some "status"; Schema.type_ := Some "Integer";
     Schema.primary_key := PyBool true;
     Schema.min_value := Schema.NoneValue;
     Schema.max_value := Schema.NoneValue;
     Schema.check_in := Schema.ListValue [PyInt 1];
     Schema.check_not_in := Schema.ListValue [PyInt 2] |}.

Definition bounded : Schema.CoreColumn :=
  {| Schema.name := Some "age"; Schema.type_ := Some "Integer";
     Schema.primary_key := PyBool false;
     Schema.min_value := Schema.PlainValue (PyInt 0);
     Schema.max_value := Schema.CallableValue 1;
     Schema.check_in := Schema.NoneValue;
     Schema.check_not_in := Schema.ListValue [PyInt 13] |}.

End MoreSamples.

(** * Properties *)

(** ** Blank names *)

Section Strip.

Lemma lstrip_empty_iff (s : string) :
  lstrip s = EmptyString ↔ all_space s = true.
Proof.
  induction s as [|c s IH]; simpl; [done|].
  destruct (isspace c); simpl; [exact IH|].
  split; discriminate.
Qed.

Lemma all_space_reverse_onto (s acc : string) :
  all_space (reverse_onto s acc) = all_space s && all_space acc.
Proof.
  revert acc. induction s as [|c s IH]; intros acc; simpl; [done|].
  rewrite IH. simpl. destruct (isspace c), (all_space s); done.
Qed.

Lemma all_space_reverse (s : string) : all_space (reverse s) = all_space s.
Proof.
  unfold reverse. rewrite all_space_reverse_onto. simpl.
  apply andb_true_r.
Qed.

Lemma reverse_onto_empty (s acc : string) :
  reverse_onto s acc = EmptyString → s = EmptyString ∧ acc = EmptyString.
Proof.
  revert acc. induction s as [|c s IH]; intros acc; simpl; [done|].
  intros H. apply IH in H as [_ H]. discriminate.
Qed.

Lemma lstrip_all_space (s : string) :
  all_space (lstrip s) = true → lstrip s = EmptyString.
Proof.
  induction s as [|c s IH]; simpl; [done|].
  destruct (isspace c) eqn:Hc; [exact IH|].
  simpl. rewrite Hc. discriminate.
Qed.

Lemma rstrip_empty_iff (s : string) :
  rstrip s = EmptyString ↔ all_space s = true.
Proof.
  unfold rstrip. split.
  - intros H. apply reverse_onto_empty in H as [H _].
    apply lstrip_empty_iff in H. by rewrite all_space_reverse in H.
  - intros H. rewrite <- all_space_reverse in H.
    apply lstrip_empty_iff in H. by rewrite H.
Qed.

(** [len(s.strip()) == 0] holds of the strings made of white space only,
    the empty one among them. *)
Lemma strip_blank (s : string) :
  (len (strip s) =? 0)%nat = true ↔ all_space s = true.
Proof.
  unfold len, strip. rewrite Nat.eqb_eq. split.
  - intros H.
    assert (rstrip (lstrip s) = EmptyString) as Hr
      by (destruct (rstrip (lstrip s)); [done | discriminate]).
    apply rstrip_empty_iff, lstrip_all_space in Hr.
    by apply lstrip_empty_iff.
  - intros H. apply lstrip_empty_iff in H. by rewrite H.
Qed.

Lemma strip_not_blank (s : string) :
  (len (strip s) =? 0)%nat = false ↔ all_space s = false.
Proof.
  rewrite <- !not_true_iff_false. by rewrite strip_blank.
Qed.

End Strip.

Example strip_spaces : strip "  bcrypt  " = "bcrypt".
Proof. reflexivity. Qed.

Example strip_blank_tab : len (strip (String (ascii_of_nat 9) " ")) = 0.
Proof. reflexivity. Qed.

(** ** The hashing registry *)

Module HashingSpec.
Import Hashing.

Lemma invalid_name_blank (inst : instance) :
  invalid_name inst = true ↔ blank_name inst.
Proof.
  unfold invalid_name, blank_name. destruct (get_name inst) as [s|].
  - rewrite strip_blank. split.
    + intros H. right. by exists s.
    + intros [H | (s' & H & Hs)]; [done|]. by injection H as ->.
  - split; [by left | done].
Qed.

(** *** What a registration does, case by case *)

Lemma register_not_HashingBase self inst options :
  is_HashingBase inst = false →
  register_hashing_handler inst options self
  = (Raise InvalidHashingHandlerTypeError, self).
Proof. intros H. unfold register_hashing_handler. by rewrite H. Qed.

Lemma register_invalid_name self inst options :
  is_HashingBase inst = true → invalid_name inst = true →
  register_hashing_handler inst options self
  = (Raise InvalidHashingHandlerNameError, self).
Proof.
  intros Ht Hn. unfold register_hashing_handler, invalid_name in *.
  rewrite Ht. simpl. destruct (get_name inst) as [s|]; [|done].
  by rewrite Hn.
Qed.

Lemma register_duplicated self inst name options :
  is_HashingBase inst = true → get_name inst = Some name →
  all_space name = false →
  name ∈ dom (_hashing_handlers self) →
  is_True (options_get options "replace" (PyBool false)) = false →
  register_hashing_handler inst options self
  = (Raise DuplicatedHashingHandlerError, self).
Proof.
  intros Ht Hn Hs Hin Hr. apply strip_not_blank in Hs.
  unfold register_hashing_handler. rewrite Ht, Hn, Hs. simpl.
  unfold bind, contains, read, ret. simpl.
  rewrite bool_decide_eq_true_2 by done. by rewrite Hr.
Qed.

Lemma register_replaces self inst name old options :
  is_HashingBase inst = true → get_name inst = Some name →
  all_space name = false →
  _hashing_handlers self !! name = Some old →
  is_True (options_get options "replace" (PyBool false)) = true →
  register_hashing_handler inst options self
  = (Return tt,
     {| _hashing_handlers := <[name := inst]> (_hashing_handlers self);
        printed := printed self ++ [Warning old inst] |}).
Proof.
  intros Ht Hn Hs Hold Hr. apply strip_not_blank in Hs.
  unfold register_hashing_handler. rewrite Ht, Hn, Hs. simpl.
  unfold bind, contains, read, ret. simpl.
  rewrite bool_decide_eq_true_2 by (apply elem_of_dom; eauto).
  rewrite Hr. simpl. unfold getitem, bind, read. simpl. by rewrite Hold.
Qed.

Lemma register_inserts self inst name options :
  is_HashingBase inst = true → get_name inst = Some name →
  all_space name = false →
  name ∉ dom (_hashing_handlers self) →
  register_hashing_handler inst options self
  = (Return tt,
     {| _hashing_handlers := <[name := inst]> (_hashing_handlers self);
        printed := printed self |}).
Proof.
  intros Ht Hn Hs Hin. apply strip_not_blank in Hs.
  unfold register_hashing_handler. rewrite Ht, Hn, Hs. simpl.
  unfold bind, contains, read, ret. simpl.
  by rewrite bool_decide_eq_false_2.
Qed.

Lemma register_cases self inst options :
  registration self inst options
    (register_hashing_handler inst options self).1
    (register_hashing_handler inst options self).2.
Proof.
  destruct (is_HashingBase inst) eqn:Ht.
  2: { rewrite register_not_HashingBase by done. by constructor. }
  destruct (invalid_name inst) eqn:Hinv.
  { rewrite register_invalid_name by done. by constructor. }
  unfold invalid_name in Hinv.
  destruct (get_name inst) as [name|] eqn:Hn; [|done].
  apply strip_not_blank in Hinv.
  destruct (_hashing_handlers self !! name) as [old|] eqn:Hold.
  - destruct (is_True (options_get options "replace" (PyBool false)))
      eqn:Hr.
    + rewrite (register_replaces self inst name old) by done.
      by eapply reg_replaced.
    + rewrite (register_duplicated self inst name) by
        (try done; apply elem_of_dom; eauto).
      eapply reg_duplicated; try done. apply elem_of_dom; eauto.
  - rewrite (register_inserts self inst name) by
      (try done; by apply not_elem_of_dom).
    eapply reg_inserted; try done. by apply not_elem_of_dom.
Qed.

(** *** The registered names *)

Lemma registration_well_keyed self inst options result self' :
  registration self inst options result self' →
  well_keyed self → well_keyed self'.
Proof.
  intros Hreg Hwf.
  destruct Hreg as [? | ? ? | name ? ? ? ? ? | name old ? ? ? ? ?
                   | name ? ? ? ?]; try done.
  all: intros k i; simpl; rewrite lookup_insert; case_decide as Hk;
    [ intros [= <-]; by subst k | by apply Hwf ].
Qed.

Lemma reachable_well_keyed self : reachable self → well_keyed self.
Proof.
  induction 1 as [|self inst options self' _ IH Hreg].
  - intros name inst. simpl. by rewrite lookup_empty.
  - pose proof (register_cases self inst options) as Hc.
    rewrite Hreg in Hc. simpl in Hc.
    by eapply registration_well_keyed.
Qed.

Lemma get_found self name inst :
  _hashing_handlers self !! name = Some inst →
  _get_hashing_handler name self = (Return inst, self).
Proof.
  intros H. unfold _get_hashing_handler, bind, contains, read, ret. simpl.
  rewrite bool_decide_eq_true_2 by (apply elem_of_dom; eauto). simpl.
  unfold getitem, bind, read. simpl. by rewrite H.
Qed.

Lemma get_not_found self name :
  name ∉ dom (_hashing_handlers self) →
  _get_hashing_handler name self = (Raise HashingHandlerNotFoundError, self).
Proof.
  intros H. unfold _get_hashing_handler, bind, contains, read, ret. simpl.
  by rewrite bool_decide_eq_false_2.
Qed.

(** *** The claims on registration and lookup *)

(** C1: in a manager that holds a handler under the name of the hashing
    handler [h], registering [h] without the [replace] option, or with
    [replace=False], raises [DuplicatedHashingHandlerError] and leaves the
    manager as it was; with [replace=True] the registration returns, and
    getting the name afterwards returns [h] itself. *)
Theorem register_same_name self h name options :
  reachable self →
  is_HashingBase h = true → get_name h = Some name →
  name ∈ dom (_hashing_handlers self) →
  ((options !! "replace" = None ∨ options !! "replace" = Some (PyBool false)) →
   register_hashing_handler h options self
   = (Raise DuplicatedHashingHandlerError, self))
  ∧ (options !! "replace" = Some (PyBool true) →
     ∃ self',
       register_hashing_handler h options self = (Return tt, self')
       ∧ _get_hashing_handler name self' = (Return h, self')).
Proof.
  intros Hreach Ht Hn Hin.
  apply elem_of_dom in Hin as Hold. destruct Hold as [old Hold].
  destruct (reachable_well_keyed self Hreach name old Hold) as (_ & _ & Hs).
  split.
  - intros Hopt. apply (register_duplicated self h name); try done.
    unfold options_get. by destruct Hopt as [-> | ->].
  - intros Hopt. eexists. split.
    + apply (register_replaces self h name old); try done.
      unfold options_get. by rewrite Hopt.
    + apply get_found. simpl. apply lookup_insert_eq.
Qed.

(** C4: getting a name raises [HashingHandlerNotFoundError] exactly when no
    handler is registered under it; when one is, it is what the call
    returns; the call never returns anything else and leaves the manager as
    it was. *)
Theorem get_hashing_handler_found_or_error self name :
  (_get_hashing_handler name self
   = (Raise HashingHandlerNotFoundError, self)
   ↔ name ∉ dom (_hashing_handlers self))
  ∧ (∀ inst, _get_hashing_handler name self = (Return inst, self)
             ↔ _hashing_handlers self !! name = Some inst)
  ∧ (∀ result self', _get_hashing_handler name self = (result, self') →
       self' = self
       ∧ (result = Raise HashingHandlerNotFoundError
          ∨ ∃ inst, result = Return inst
                    ∧ _hashing_handlers self !! name = Some inst)).
Proof.
  destruct (_hashing_handlers self !! name) as [found|] eqn:Hl.
  - pose proof (get_found self name found Hl) as Hg. rewrite Hg.
    split; [|split].
    + split; [done|]. intros Hn. apply not_elem_of_dom in Hn. congruence.
    + intros inst. split; [by intros [= ->] | by intros [= ->]].
    + intros result self' [= <- <-]. split; [done|]. right. by exists found.
  - apply not_elem_of_dom in Hl as Hn.
    rewrite (get_not_found self name Hn). split; [|split].
    + done.
    + intros inst. split; done.
    + intros result self' [= <- <-]. split; [done|]. by left.
Qed.

(** C8: a registration raises [InvalidHashingHandlerTypeError] exactly when
    the instance is not a [HashingBase], whatever its name is, and
    [InvalidHashingHandlerNameError] exactly when it is one and its name is
    [None], empty or made of white space only: the type is checked before
    the name. *)
Theorem register_checks_type_then_name self inst options :
  ((register_hashing_handler inst options self).1
   = Raise InvalidHashingHandlerTypeError
   ↔ is_HashingBase inst = false)
  ∧ ((register_hashing_handler inst options self).1
     = Raise InvalidHashingHandlerNameError
     ↔ is_HashingBase inst = true ∧ blank_name inst)
  ∧ (is_HashingBase inst = false → blank_name inst →
     register_hashing_handler inst options self
     = (Raise InvalidHashingHandlerTypeError, self)).
Proof.
  pose proof (register_cases self inst options) as Hc.
  split; [|split].
  - split.
    + intros H. rewrite H in Hc. by inversion Hc.
    + intros H. by rewrite register_not_HashingBase.
  - split.
    + intros H. rewrite H in Hc. inversion Hc.
      split; [done|]. by apply invalid_name_blank.
    + intros [Ht Hb]. apply invalid_name_blank in Hb.
      by rewrite register_invalid_name.
  - intros Ht _. by apply register_not_HashingBase.
Qed.

(** C9: a registration that raises — and it raises nothing but the three
    registration errors — leaves the manager as it was; one that returns
    has set the entry of the instance's name to the instance and changed
    no other entry. *)
Theorem register_frame self inst options result self' :
  register_hashing_handler inst options self = (result, self') →
  match result with
  | Raise e =>
      self' = self
      ∧ (e = InvalidHashingHandlerTypeError
         ∨ e = InvalidHashingHandlerNameError
         ∨ e = DuplicatedHashingHandlerError)
  | Return _ =>
      ∃ name,
        get_name inst = Some name
        ∧ _hashing_handlers self'
          = <[name := inst]> (_hashing_handlers self)
        ∧ ∀ other, other ≠ name →
            _hashing_handlers self' !! other
            = _hashing_handlers self !! other
  end.
Proof.
  intros Hrun. pose proof (register_cases self inst options) as Hc.
  rewrite Hrun in Hc. simpl in Hc.
  destruct Hc as [? | ? ? | name ? ? ? ? ? | name old ? ? ? ? ?
                 | name ? ? ? ?].
  1-3: split; [done | tauto].
  all: exists name; simpl; split; [done|]; split; [done|];
    intros other Hne; by rewrite lookup_insert_ne.
Qed.

(** C10: when the name of the hashing handler is taken, a [replace] option
    that is any value but the boolean [True], truthy values among them,
    raises [DuplicatedHashingHandlerError]; the registration returns only
    when the option is [True] itself. *)
Theorem replace_needs_True self h name options :
  reachable self →
  is_HashingBase h = true → get_name h = Some name →
  name ∈ dom (_hashing_handlers self) →
  (∀ v, options !! "replace" = Some v → v ≠ PyBool true →
     register_hashing_handler h options self
     = (Raise DuplicatedHashingHandlerError, self))
  ∧ ((register_hashing_handler h options self).1 = Return tt
     ↔ options !! "replace" = Some (PyBool true)).
Proof.
  intros Hreach Ht Hn Hin.
  apply elem_of_dom in Hin as Hold. destruct Hold as [old Hold].
  destruct (reachable_well_keyed self Hreach name old Hold) as (_ & _ & Hs).
  assert (∀ v, v ≠ PyBool true → is_True v = false) as Hnot.
  { intros [| [|] | |] Hv; done. }
  split.
  - intros v Hopt Hv. apply (register_duplicated self h name); try done.
    unfold options_get. rewrite Hopt. by apply Hnot.
  - split.
    + intros Hret. destruct (options !! "replace") as [v|] eqn:Hopt.
      * destruct (decide (v = PyBool true)) as [-> | Hv]; [done|].
        rewrite (register_duplicated self h name) in Hret; try done.
        unfold options_get. rewrite Hopt. by apply Hnot.
      * rewrite (register_duplicated self h name) in Hret; try done.
        unfold options_get. by rewrite Hopt.
    + intros Hopt.
      rewrite (register_replaces self h name old); try done.
      unfold options_get. by rewrite Hopt.
Qed.

(** *** The claims at sample inputs *)

Lemma with_bcrypt_reachable : reachable Samples.with_bcrypt.
Proof.
  apply (reachable_register init Samples.bcrypt_first ∅);
    [constructor | reflexivity].
Qed.

Lemma with_bcrypt_holds : "bcrypt" ∈ dom (_hashing_handlers Samples.with_bcrypt).
Proof. apply elem_of_dom. by eexists. Qed.

Lemma register_same_name_witness :
  ((Samples.replace_given (PyBool true) !! "replace" = None
    ∨ Samples.replace_given (PyBool true) !! "replace" = Some (PyBool false)) →
   register_hashing_handler Samples.bcrypt_second
     (Samples.replace_given (PyBool true)) Samples.with_bcrypt
   = (Raise DuplicatedHashingHandlerError, Samples.with_bcrypt))
  ∧ (Samples.replace_given (PyBool true) !! "replace" = Some (PyBool true) →
     ∃ self',
       register_hashing_handler Samples.bcrypt_second
         (Samples.replace_given (PyBool true)) Samples.with_bcrypt
       = (Return tt, self')
       ∧ _get_hashing_handler "bcrypt" self'
         = (Return Samples.bcrypt_second, self')).
Proof.
  apply (register_same_name Samples.with_bcrypt Samples.bcrypt_second
           "bcrypt" (Samples.replace_given (PyBool true))).
  - exact with_bcrypt_reachable.
  - reflexivity.
  - reflexivity.
  - exact with_bcrypt_holds.
Defined.

Lemma register_frame_witness :
  ∃ name,
    get_name Samples.bcrypt_second = Some name
    ∧ _hashing_handlers
        {| _hashing_handlers :=
             <["bcrypt" := Samples.bcrypt_second]>
               (_hashing_handlers Samples.with_bcrypt);
           printed := [Warning Samples.bcrypt_first Samples.bcrypt_second] |}
      = <[name := Samples.bcrypt_second]>
          (_hashing_handlers Samples.with_bcrypt)
    ∧ ∀ other, other ≠ name →
        _hashing_handlers
          {| _hashing_handlers :=
               <["bcrypt" := Samples.bcrypt_second]>
                 (_hashing_handlers Samples.with_bcrypt);
             printed := [Warning Samples.bcrypt_first Samples.bcrypt_second] |}
          !! other
        = _hashing_handlers Samples.with_bcrypt !! other.
Proof.
  apply (register_frame Samples.with_bcrypt Samples.bcrypt_second
           (Samples.replace_given (PyBool true)) (Return tt)).
  reflexivity.
Defined.

Lemma replace_needs_True_witness :
  (∀ v, Samples.replace_given (PyInt 1) !! "replace" = Some v →
     v ≠ PyBool true →
     register_hashing_handler Samples.bcrypt_second
       (Samples.replace_given (PyInt 1)) Samples.with_bcrypt
     = (Raise DuplicatedHashingHandlerError, Samples.with_bcrypt))
  ∧ ((register_hashing_handler Samples.bcrypt_second
        (Samples.replace_given (PyInt 1)) Samples.with_bcrypt).1 = Return tt
     ↔ Samples.replace_given (PyInt 1) !! "replace" = Some (PyBool true)).
Proof.
  apply (replace_needs_True Samples.with_bcrypt Samples.bcrypt_second
           "bcrypt" (Samples.replace_given (PyInt 1))).
  - exact with_bcrypt_reachable.
  - reflexivity.
  - reflexivity.
  - exact with_bcrypt_holds.
Defined.

(** A truthy [replace] that is not [True] does not replace. *)
Example replace_one_is_refused :
  truthy (PyInt 1) = true
  ∧ register_hashing_handler Samples.bcrypt_second
      (Samples.replace_given (PyInt 1)) Samples.with_bcrypt
    = (Raise DuplicatedHashingHandlerError, Samples.with_bcrypt).
Proof. split; reflexivity. Qed.

(** An object that is no handler and has a blank name is refused for its
    type; a handler with a blank name for its name. *)
Example register_not_a_handler :
  register_hashing_handler Samples.not_a_handler ∅ init
  = (Raise InvalidHashingHandlerTypeError, init).
Proof. reflexivity. Qed.

Example register_nameless_handler :
  register_hashing_handler Samples.nameless_handler ∅ init
  = (Raise InvalidHashingHandlerNameError, init).
Proof. reflexivity. Qed.

Example get_unregistered :
  _get_hashing_handler "argon2" Samples.with_bcrypt
  = (Raise HashingHandlerNotFoundError, Samples.with_bcrypt).
Proof. reflexivity. Qed.

End HashingSpec.

(** ** The validators *)

Module ValidatorSpec.
Import Validator.

Lemma registered_kept self dom_key name_key validator :
  registered self dom_key name_key validator
  ↔ kept self dom_key name_key = Some validator.
Proof.
  unfold registered, kept. split.
  - intros (m & Hm & Hv). by rewrite Hm.
  - destruct (_validators self !! dom_key) as [m|]; [|done].
    intros Hv. by exists m.
Qed.

Lemma not_registered_kept self dom_key name_key :
  (∀ validator, ¬ registered self dom_key name_key validator)
  ↔ kept self dom_key name_key = None.
Proof.
  split.
  - intros H. destruct (kept self dom_key name_key) as [v|] eqn:Hk; [|done].
    exfalso. apply (H v). by apply registered_kept.
  - intros Hk v Hv. apply registered_kept in Hv. congruence.
Qed.

Lemma get_validator_kept self dom_key name_key :
  manager_get_validator dom_key name_key self
  = (Return (kept self dom_key name_key), self).
Proof.
  unfold manager_get_validator, manager_get_domain_validators, kept,
    bind, read, ret. simpl.
  by destruct (_validators self !! dom_key).
Qed.

Lemma get_domain_validators_kept self dom_key :
  ∃ domain_validators,
    get_domain_validators dom_key self = (Return domain_validators, self)
    ∧ ∀ name_key, domain_validators !! name_key = kept self dom_key name_key.
Proof.
  unfold get_domain_validators, manager_get_domain_validators, kept,
    bind, read, ret. simpl.
  destruct (_validators self !! dom_key) as [m|]; eexists; split; try done.
Qed.

(** What [validate_field] does, by what is kept under (domain, name). *)
Lemma validate_field_kept self dom_key name_key value opts :
  validate_field dom_key name_key value opts self
  = (match kept self dom_key name_key with
     | None =>
         if force opts then Raise ValidatorNotFoundError else Return false
     | Some validator =>
         match validate validator value opts with
         | Some message => Raise (ValidationError {[name_key := message]})
         | None => Return true
         end
     end, self).
Proof.
  unfold validate_field, manager_validate_field, bind.
  rewrite get_validator_kept.
  destruct (kept self dom_key name_key) as [v|].
  - by destruct (validate v value opts).
  - by destruct (force opts).
Qed.

(** What a registration that returned leaves under each key. *)
Lemma register_kept self inst opts self' dom_key name_key :
  register_validator inst opts self = (Return tt, self') →
  kept self' dom_key name_key
  = if bool_decide (domain inst = dom_key ∧ name inst = name_key)
    then Some inst else kept self dom_key name_key.
Proof.
  unfold register_validator, manager_register_validator.
  destruct (is_validator inst); simpl; [|done].
  unfold bind, read. simpl.
  match goal with |- context [if ?c then _ else _] => destruct c end;
    [done|].
  unfold put. intros [= <-]. unfold kept. simpl.
  rewrite lookup_insert. case_decide as Hd.
  - subst dom_key. rewrite lookup_insert. case_decide as Hn.
    + subst name_key. by rewrite bool_decide_eq_true_2.
    + rewrite bool_decide_eq_false_2 by (by intros [_ ?]).
      by destruct (_validators self !! domain inst).
  - by rewrite bool_decide_eq_false_2 by (by intros [? _]).
Qed.

Lemma latest_snoc log inst dom_key name_key :
  latest (log ++ [inst]) dom_key name_key
  = if bool_decide (domain inst = dom_key ∧ name inst = name_key)
    then Some inst else latest log dom_key name_key.
Proof.
  unfold latest. rewrite filter_app, filter_cons, filter_nil.
  case_bool_decide as Hp.
  - rewrite decide_True by done. apply last_snoc.
  - rewrite decide_False by done. by rewrite app_nil_r.
Qed.

(** What is kept under a key is the validator registered last under
    it. *)
Lemma registrations_kept self log :
  registrations self log →
  ∀ dom_key name_key, kept self dom_key name_key = latest log dom_key name_key.
Proof.
  induction 1 as [|self log inst opts self' _ IH Hreg];
    intros dom_key name_key.
  - unfold kept. simpl. by rewrite lookup_empty.
  - rewrite (register_kept self inst opts self') by done.
    by rewrite latest_snoc, IH.
Qed.

(** *** The claims on the domain-scoped registry *)

(** C5: for a domain under which no validator has been registered
    [get_domain_validators] returns the empty mapping and raises nothing;
    for any domain it returns the mapping that holds, under each name, the
    validator registered last under the domain and that name: every
    validator registered under the domain that no later registration has
    replaced, and nothing else. *)
Theorem get_domain_validators_empty_or_all self log dom_key :
  registrations self log →
  ∃ domain_validators,
    get_domain_validators dom_key self = (Return domain_validators, self)
    ∧ ((∀ inst, inst ∈ log → domain inst ≠ dom_key) →
       domain_validators = ∅)
    ∧ ∀ name_key,
        domain_validators !! name_key = latest log dom_key name_key.
Proof.
  intros Hlog. pose proof (registrations_kept self log Hlog) as Hkept.
  destruct (get_domain_validators_kept self dom_key) as (m & Hget & Hm).
  exists m. split; [done|].
  assert (∀ name_key, m !! name_key = latest log dom_key name_key) as Hall.
  { intros name_key. by rewrite Hm, Hkept. }
  split; [|done].
  intros Hnone. apply map_eq. intros name_key.
  rewrite Hall, lookup_empty. unfold latest.
  destruct (last _) as [inst|] eqn:Hlast; [|done].
  exfalso. apply last_Some_elem_of in Hlast.
  apply list_elem_of_filter in Hlast as [[Hd _] Hin].
  by apply (Hnone inst).
Qed.

(** C6: when no validator is registered under (domain, name),
    [validate_field] raises [ValidatorNotFoundError] if [force] is set and
    returns [False], raising nothing, if it is not; when one is registered
    the value goes to it: the call returns [True] if the validator accepts
    the value and raises its [ValidationError] otherwise. *)
Theorem validate_field_not_found_or_delegates self dom_key name_key value
    opts :
  ((∀ validator, ¬ registered self dom_key name_key validator) →
   (force opts = true →
    validate_field dom_key name_key value opts self
    = (Raise ValidatorNotFoundError, self))
   ∧ (force opts = false →
      validate_field dom_key name_key value opts self
      = (Return false, self)))
  ∧ (∀ validator, registered self dom_key name_key validator →
     validate_field dom_key name_key value opts self
     = (match validate validator value opts with
        | Some message => Raise (ValidationError {[name_key := message]})
        | None => Return true
        end, self)).
Proof.
  rewrite validate_field_kept. split.
  - intros Hnone. apply not_registered_kept in Hnone. rewrite Hnone.
    split; by intros ->.
  - intros validator Hv. apply registered_kept in Hv. by rewrite Hv.
Qed.






(** *** The claims at sample inputs *)

Lemma user_validators_registrations :
  registrations Samples.user_validators
    ([Samples.age_validator] ++ [Samples.name_validator]).
Proof.
  apply (registrations_register
           {| _validators := {[ "user" := {[ "age" := Samples.age_validator ]} ]} |}
           [Samples.age_validator] Samples.name_validator Samples.defaults);
    [|reflexivity].
  apply (registrations_register init [] Samples.age_validator
           Samples.defaults);
    [constructor | reflexivity].
Qed.

Lemma age_is_registered :
  registered Samples.user_validators "user" "age" Samples.age_validator.
Proof. eexists. split; reflexivity. Qed.


Lemma get_domain_validators_empty_or_all_witness :
  ∃ domain_validators,
    get_domain_validators "order" Samples.user_validators
    = (Return domain_validators, Samples.user_validators)
    ∧ ((∀ inst,
          inst ∈ [Samples.age_validator] ++ [Samples.name_validator] →
          domain inst ≠ "order") →
       domain_validators = ∅)
    ∧ ∀ name_key,
        domain_validators !! name_key
        = latest ([Samples.age_validator] ++ [Samples.name_validator])
            "order" name_key.
Proof.
  apply (get_domain_validators_empty_or_all Samples.user_validators
           ([Samples.age_validator] ++ [Samples.name_validator]) "order").
  exact user_validators_registrations.
Defined.

(** The validators of a domain, and of a domain that is not known. *)
Example get_domain_validators_user :
  get_domain_validators "user" Samples.user_validators
  = (Return (<["name" := Samples.name_validator]>
               {[ "age" := Samples.age_validator ]}),
     Samples.user_validators)
  ∧ get_domain_validators "order" Samples.user_validators
    = (Return ∅, Samples.user_validators).
Proof. split; reflexivity. Qed.

Lemma validate_field_not_found_or_delegates_witness :
  validate_field "user" "age" (PyStr "old") Samples.defaults
    Samples.user_validators
  = (Raise (ValidationError
              {[ "age" := "The provided value for [age] must be an integer." ]}),
     Samples.user_validators).
Proof.
  apply (proj2 (validate_field_not_found_or_delegates
                  Samples.user_validators "user" "age" (PyStr "old")
                  Samples.defaults) Samples.age_validator).
  exact age_is_registered.
Defined.


(** The two messages come in one error when [lazy] is set; without it the
    first invalid field raises alone. *)
Example validate_bad_user_lazily :
  validate_dict "user" Samples.bad_user Samples.lazily Samples.user_validators
  = (Raise (ValidationError
              {[ "age" := "The provided value for [age] must be an integer.";
                 "name" := "The provided value for [name] must be a string." ]}),
     Samples.user_validators).
Proof. reflexivity. Qed.

Example validate_bad_user_at_once :
  validate_dict "user" Samples.bad_user Samples.defaults
    Samples.user_validators
  = (Raise (ValidationError
              {[ "age" := "The provided value for [age] must be an integer." ]}),
     Samples.user_validators).
Proof. reflexivity. Qed.

Example validate_unknown_field :
  validate_field "user" "email" (PyStr "a@b") Samples.defaults
    Samples.user_validators
  = (Return false, Samples.user_validators)
  ∧ validate_field "user" "email" (PyStr "a@b") Samples.forced
      Samples.user_validators
    = (Raise ValidatorNotFoundError, Samples.user_validators).
Proof. split; reflexivity. Qed.

End ValidatorSpec.

(** ** The loading order *)

Module PackagingSpec.
Import Packaging.

(** *** Relations without a sink on a finite carrier *)

Section Walks.

Context {A : Type} `{EqDecision A} (R : relation A).

Lemma walk_reaches x p y : walk R x p → y ∈ p → tc R x y.
Proof.
  revert x. induction p as [|z p IH]; intros x Hw Hy.
  - by apply elem_of_nil in Hy.
  - destruct Hw as [Hxz Hw]. apply elem_of_cons in Hy as [-> | Hy].
    + by apply tc_once.
    + eapply tc_l; [exact Hxz|]. by apply IH.
Qed.

Lemma walk_repeats x p : walk R x p → ¬ NoDup (x :: p) → ∃ z, tc R z z.
Proof.
  revert x. induction p as [|y p IH]; intros x Hw Hdup.
  - exfalso. apply Hdup. apply NoDup_singleton.
  - destruct (decide (x ∈ y :: p)) as [Hin | Hnin].
    + exists x. by eapply walk_reaches.
    + destruct Hw as [_ Hw]. apply (IH y Hw).
      intros Hnd. apply Hdup. by constructor.
Qed.

Lemma walk_within (carrier : list A) n x :
  (∀ a, a ∈ carrier → ∃ b, b ∈ carrier ∧ R a b) →
  x ∈ carrier →
  ∃ p, length p = n ∧ walk R x p ∧ ∀ a, a ∈ p → a ∈ carrier.
Proof.
  intros Hnext. revert x. induction n as [|n IH]; intros x Hx.
  - exists []. split; [done|]. split; [done|].
    intros a Ha. by apply elem_of_nil in Ha.
  - destruct (Hnext x Hx) as (y & Hy & Hxy).
    destruct (IH y Hy) as (p & Hlen & Hw & Hp).
    exists (y :: p). simpl. split; [by rewrite Hlen|]. split; [done|].
    intros a Ha. apply elem_of_cons in Ha as [-> | Ha]; [done|].
    by apply Hp.
Qed.

(** When every element of a list that is not empty is related to one of
    the list, some element reaches itself. *)
Lemma no_sink_cycle (carrier : list A) x :
  x ∈ carrier →
  (∀ a, a ∈ carrier → ∃ b, b ∈ carrier ∧ R a b) →
  ∃ z, tc R z z.
Proof.
  intros Hx Hnext.
  destruct (walk_within carrier (length carrier) x Hnext Hx)
    as (p & Hlen & Hw & Hp).
  apply (walk_repeats x p Hw). intros Hnd.
  assert (x :: p ⊆+ carrier) as Hsub.
  { apply NoDup_submseteq; [done|]. intros a Ha.
    apply elem_of_cons in Ha as [-> | Ha]; [done | by apply Hp]. }
  apply submseteq_length in Hsub. simpl in Hsub. lia.
Qed.

End Walks.

(** *** The selection step *)

Lemma ready_true order u :
  ready order u = true ↔ ∀ d, d ∈ DEPENDS u → d ∈ order.
Proof.
  unfold ready. rewrite forallb_forall. split.
  - intros H d Hd. apply list_elem_of_In in Hd.
    by apply H, bool_decide_eq_true in Hd.
  - intros H d Hd. apply list_elem_of_In in Hd.
    by apply bool_decide_eq_true, H.
Qed.

Lemma ready_false order u :
  ready order u = false ↔ ∃ d, d ∈ DEPENDS u ∧ d ∉ order.
Proof.
  unfold ready. split.
  - intros H. induction (DEPENDS u) as [|d ds IH]; simpl in H; [done|].
    apply andb_false_iff in H as [H | H].
    + exists d. split; [by left|]. by apply bool_decide_eq_false in H.
    + destruct (IH H) as (d' & Hd' & Hn). exists d'. split; [by right|done].
  - intros (d & Hd & Hn). apply not_true_iff_false. intros Ht.
    apply Hn. by apply (proj1 (ready_true order u) Ht).
Qed.

Lemma select_Some order unplaced chosen rest :
  select order unplaced = Some (chosen, rest) →
  ∃ l1 l2,
    unplaced = l1 ++ chosen :: l2 ∧ rest = l1 ++ l2
    ∧ ready order chosen = true
    ∧ ∀ u, u ∈ l1 → ready order u = false.
Proof.
  revert rest. induction unplaced as [|u others IH]; intros rest; simpl;
    [done|].
  destruct (ready order u) eqn:Hu.
  - intros [= -> ->]. exists [], rest. split; [done|]. split; [done|].
    split; [done|]. intros v Hv. by apply elem_of_nil in Hv.
  - destruct (select order others) as [[c r]|]; [|done].
    intros [= -> <-].
    destruct (IH r eq_refl) as (l1 & l2 & -> & -> & Hc & Hl1).
    exists (u :: l1), l2. split; [done|]. split; [done|]. split; [done|].
    intros v Hv. apply elem_of_cons in Hv as [-> | Hv]; [done|].
    by apply Hl1.
Qed.

Lemma select_None order unplaced :
  select order unplaced = None ↔ ∀ u, u ∈ unplaced → ready order u = false.
Proof.
  induction unplaced as [|u others IH]; simpl.
  - split; [|done]. intros _ v Hv. by apply elem_of_nil in Hv.
  - destruct (ready order u) eqn:Hu.
    + split; [done|]. intros H. specialize (H u (list_elem_of_here _ _)).
      congruence.
    + destruct (select order others) as [[c r]|].
      * split; [done|]. intros H.
        assert (Some (c, r) = @None (Package * list Package)) by
          (apply IH; intros v Hv; apply H; by right).
        done.
      * split; [|done]. intros _ v Hv.
        apply elem_of_cons in Hv as [-> | Hv]; [done|]. by apply IH.
Qed.

(** *** The rounds *)

(** What every selection keeps, the rounds keep. *)
Lemma place_keeps (I : list string → list Package → Prop) :
  (∀ order unplaced chosen rest,
     I order unplaced → select order unplaced = Some (chosen, rest) →
     I (order ++ [NAME chosen]) rest) →
  ∀ rounds order unplaced,
    I order unplaced →
    I (place rounds order unplaced).1 (place rounds order unplaced).2.
Proof.
  intros Hstep rounds.
  induction rounds as [|rounds IH]; intros order unplaced HI; simpl; [done|].
  destruct (select order unplaced) as [[c r]|] eqn:Hsel; [|done].
  apply IH. by eapply Hstep.
Qed.

(** With a round for each unplaced unit, the rounds end with every unit
    placed or with none ready. *)
Lemma place_ends rounds order (unplaced : list Package) :
  (length unplaced ≤ rounds)%nat →
  (place rounds order unplaced).2 = []
  ∨ (place rounds order unplaced).2 ≠ []
    ∧ select (place rounds order unplaced).1 (place rounds order unplaced).2
      = None.
Proof.
  revert order unplaced.
  induction rounds as [|rounds IH]; intros order unplaced Hlen; simpl.
  - left. destruct unplaced; [done | simpl in Hlen; lia].
  - destruct (select order unplaced) as [[c r]|] eqn:Hsel.
    + apply IH.
      apply select_Some in Hsel as (l1 & l2 & -> & -> & _).
      rewrite length_app in *. simpl in Hlen. lia.
    + simpl. destruct unplaced as [|u others]; [by left|].
      right. by split.
Qed.

(** *** Declaration order among the unplaced units *)

Lemma sublist_later {A : Type} (l1 l2 k : list A) (c u : A) i j :
  l1 ++ c :: l2 `sublist_of` k → NoDup k → u ∈ l2 →
  k !! i = Some u → k !! j = Some c → j < i.
Proof.
  intros Hsub Hnd Hu Hi Hj.
  apply sublist_app_l in Hsub as (k1 & k2 & -> & _ & Hsub).
  apply sublist_cons_l in Hsub as (k21 & k22 & -> & Hsub).
  assert (u ∈ k22) as Hu'
    by (eapply elem_of_submseteq; [done | by apply sublist_submseteq]).
  apply list_elem_of_lookup in Hu' as [n Hn].
  assert ((k1 ++ k21 ++ c :: k22) !! (length k1 + length k21) = Some c)
    as Hc.
  { rewrite lookup_app_r by lia.
    replace (length k1 + length k21 - length k1) with (length k21) by lia.
    by apply list_lookup_middle. }
  assert ((k1 ++ k21 ++ c :: k22) !! (length k1 + length k21 + S n) = Some u)
    as Hu''.
  { rewrite lookup_app_r by lia. rewrite lookup_app_r by lia.
    replace (length k1 + length k21 + S n - length k1 - length k21)
      with (S n) by lia.
    done. }
  rewrite (NoDup_lookup _ _ _ _ Hnd Hj Hc).
  rewrite (NoDup_lookup _ _ _ _ Hnd Hi Hu''). lia.
Qed.

Lemma sublist_names (l k : list Package) :
  l `sublist_of` k → (NAME <$> l) `sublist_of` (NAME <$> k).
Proof. induction 1; simpl; by constructor. Qed.

(** *** What the rounds keep *)

Section Placing.

Variables first second : string.
Variable units : list Package.
Hypothesis names_differ : NoDup (first :: second :: (NAME <$> units)).

Lemma names_NoDup : NoDup (NAME <$> units).
Proof. by apply NoDup_cons in names_differ as [_ [_ H]%NoDup_cons]. Qed.

Lemma units_NoDup : NoDup units.
Proof. eapply NoDup_fmap_1, names_NoDup. Qed.

Lemma declared_not_reserved u :
  u ∈ units → NAME u ∉ [first; second].
Proof.
  intros Hu Hin.
  assert (NAME u ∈ NAME <$> units) as Hn by (by apply list_elem_of_fmap_2).
  apply NoDup_cons in names_differ as [H1 [H2 _]%NoDup_cons].
  apply elem_of_cons in Hin as [Heq | Hin].
  - apply H1. rewrite <- Heq. by right.
  - apply elem_of_cons in Hin as [Heq | Hin].
    + apply H2. by rewrite <- Heq.
    + by apply elem_of_nil in Hin.
Qed.

Lemma same_name_same_unit u v :
  u ∈ units → v ∈ units → NAME u = NAME v → u = v.
Proof.
  intros [i Hi]%list_elem_of_lookup [j Hj]%list_elem_of_lookup Heq.
  assert ((NAME <$> units) !! i = Some (NAME u)) as Hni
    by (by rewrite list_lookup_fmap, Hi).
  assert ((NAME <$> units) !! j = Some (NAME u)) as Hnj
    by (by rewrite list_lookup_fmap, Hj, Heq).
  rewrite (NoDup_lookup _ _ _ _ names_NoDup Hni Hnj) in Hi. congruence.
Qed.

Lemma placing_start : placing first second units [first; second] units.
Proof.
  split; [|split; [|split]].
  - exists []. by rewrite app_nil_r.
  - done.
  - intros u j Hu Hj. exfalso. apply (declared_not_reserved u Hu).
    by eapply list_elem_of_lookup_2.
  - intros i j u v p _ _ Hv Hp. exfalso.
    apply (declared_not_reserved v); [by eapply list_elem_of_lookup_2|].
    by eapply list_elem_of_lookup_2.
Qed.

Lemma placing_step order unplaced chosen rest :
  placing first second units order unplaced →
  select order unplaced = Some (chosen, rest) →
  placing first second units (order ++ [NAME chosen]) rest.
Proof.
  intros ((added & Horder & Hperm) & Hsub & Hdeps & Hties) Hsel.
  apply select_Some in Hsel as (l1 & l2 & -> & -> & Hready & Hwait).
  assert (∀ u, u ∈ l1 ++ chosen :: l2 → u ∈ units) as Hun.
  { intros u Hu. eapply elem_of_submseteq; [done|].
    by apply sublist_submseteq. }
  assert (chosen ∈ units) as Hchosen.
  { apply Hun. apply elem_of_app. right. by left. }
  split; [|split; [|split]].
  - exists (added ++ [NAME chosen]). split.
    + rewrite Horder. by rewrite app_assoc.
    + rewrite <- Hperm. rewrite !fmap_app, fmap_cons.
      rewrite <- app_assoc. f_equiv. simpl. apply Permutation_middle.
  - etrans; [|exact Hsub]. apply sublist_app; [done|].
    by apply sublist_cons.
  - intros u j Hu Hj d Hd.
    apply lookup_snoc_Some in Hj as [[Hlt Hj] | [-> Hname]].
    + destruct (Hdeps u j Hu Hj d Hd) as (i & Hi & Hid).
      exists i. split; [done|]. by apply lookup_app_l_Some.
    + assert (u = chosen) as -> by (by apply same_name_same_unit).
      assert (d ∈ order) as Hin
        by (by apply (proj1 (ready_true order chosen) Hready)).
      apply list_elem_of_lookup in Hin as [i Hi].
      exists i. split; [by eapply lookup_lt_Some|].
      by apply lookup_app_l_Some.
  - intros i j u v p Hij Hu Hv Hp.
    apply lookup_snoc_Some in Hp as [[Hlt Hp] | [-> Hname]].
    + rewrite take_app_le by lia. exact (Hties i j u v p Hij Hu Hv Hp).
    + rewrite take_app_length.
      assert (v = chosen) as ->.
      { apply same_name_same_unit; [|done..].
        by eapply list_elem_of_lookup_2. }
      destruct (decide (NAME u ∈ order)) as [Hplaced | Hnot]; [by left|].
      right. apply ready_false.
      assert (u ∈ units) as Huu by (by eapply list_elem_of_lookup_2).
      assert (u ∈ l1 ++ chosen :: l2) as Hwhere.
      { assert (NAME u ∈ added ++ (NAME <$> l1 ++ chosen :: l2)) as Hn.
        { rewrite Hperm. by apply list_elem_of_fmap_2. }
        apply elem_of_app in Hn as [Hn | Hn].
        - exfalso. apply Hnot. rewrite Horder. apply elem_of_app. by right.
        - apply list_elem_of_fmap in Hn as (u' & Heq & Hu').
          assert (u = u') as <-; [|done].
          apply same_name_same_unit; [done | by apply Hun | done]. }
      apply elem_of_app in Hwhere as [Hl1 | Hrest]; [by apply Hwait|].
      exfalso. apply elem_of_cons in Hrest as [-> | Hl2].
      * pose proof (NoDup_lookup _ _ _ _ units_NoDup Hu Hv). lia.
      * pose proof (sublist_later l1 l2 units chosen u i j Hsub
                      units_NoDup Hl2 Hu Hv).
        lia.
Qed.

(** The rounds of the loader keep [placing]. *)
Lemma placing_rounds rounds :
  placing first second units
    (place rounds [first; second] units).1
    (place rounds [first; second] units).2.
Proof.
  apply (place_keeps (placing first second units)).
  - apply placing_step.
  - apply placing_start.
Qed.

End Placing.

(** *** Orders and cycles *)

Section Orders.

Variables first second : string.
Variable units : list Package.
Hypothesis names_differ : NoDup (first :: second :: (NAME <$> units)).

Lemma placing_NoDup order unplaced :
  placing first second units order unplaced → NoDup order.
Proof.
  intros ((added & -> & Hperm) & _).
  assert (NoDup (added ++ (NAME <$> unplaced))) as Hnd
    by (rewrite Hperm; by eapply names_NoDup).
  apply NoDup_app in Hnd as (Hadded & _ & _).
  assert (∀ x, x ∈ added → x ∈ NAME <$> units) as Hsub.
  { intros x Hx. rewrite <- Hperm. apply elem_of_app. by left. }
  apply NoDup_cons in names_differ as [H1 [H2 _]%NoDup_cons].
  simpl. apply NoDup_cons. split.
  - intros Hin. apply H1. apply elem_of_cons in Hin as [-> | Hin];
      [by left | right; by apply Hsub].
  - apply NoDup_cons. split; [|done]. intros Hin. by apply H2, Hsub.
Qed.

(** What a placed unit reaches along dependencies stands before it. *)
Lemma reaches_earlier order x y :
  dependencies_first units order →
  tc (depends_on units) x y →
  ∀ j, order !! j = Some x → ∃ i, i < j ∧ order !! i = Some y.
Proof.
  intros Hdeps. induction 1 as [x y Hxy | x z y Hxz _ IH]; intros j Hj.
  - destruct Hxy as (u & Hu & <- & Hd). by apply (Hdeps u j).
  - destruct Hxz as (u & Hu & <- & Hd).
    destruct (Hdeps u j Hu Hj z Hd) as (k & Hk & Hkz).
    destruct (IH k Hkz) as (i & Hi & Hiy).
    exists i. split; [lia | done].
Qed.

Lemma placed_not_on_cycle order unplaced a :
  placing first second units order unplaced →
  tc (depends_on units) a a → a ∉ order.
Proof.
  intros Hpl Hcycle [j Hj]%list_elem_of_lookup.
  pose proof (placing_NoDup order unplaced Hpl) as Hnd.
  destruct Hpl as (_ & _ & Hdeps & _).
  destruct (reaches_earlier order a a Hdeps Hcycle j Hj) as (i & Hi & Hia).
  pose proof (NoDup_lookup _ _ _ _ Hnd Hj Hia). lia.
Qed.

(** A declared unit is placed or still unplaced. *)
Lemma placed_or_unplaced order unplaced x :
  placing first second units order unplaced →
  x ∈ NAME <$> units → x ∉ order → x ∈ NAME <$> unplaced.
Proof.
  intros ((added & -> & Hperm) & _) Hx Hnot.
  rewrite <- Hperm in Hx. apply elem_of_app in Hx as [Hx | Hx]; [|done].
  exfalso. apply Hnot. apply elem_of_app. by right.
Qed.

Lemma on_cycle_declared a :
  tc (depends_on units) a a → a ∈ NAME <$> units.
Proof.
  intros Hc.
  assert (∃ b, depends_on units a b) as (b & u & Hu & <- & _).
  { inversion Hc as [x y H | x y z H _]; subst; by eexists. }
  by apply list_elem_of_fmap_2.
Qed.

(** Where no unit is ready, each unplaced unit waits for an unplaced unit
    or for a name that is not declared. *)
Lemma stuck_waits order unplaced x :
  placing first second units order unplaced →
  select order unplaced = None →
  x ∈ NAME <$> unplaced →
  ∃ d, depends_on units x d
       ∧ (d ∈ NAME <$> unplaced
          ∨ d ∉ [first; second] ++ (NAME <$> units)).
Proof.
  intros Hpl Hsel Hx.
  apply list_elem_of_fmap in Hx as (u & -> & Hu).
  pose proof (proj1 (select_None order unplaced) Hsel u Hu) as Hwait.
  apply ready_false in Hwait as (d & Hd & Hnot).
  assert (u ∈ units) as Huu.
  { destruct Hpl as (_ & Hsub & _). eapply elem_of_submseteq; [done|].
    by apply sublist_submseteq. }
  exists d. split; [by exists u|].
  destruct (decide (d ∈ [first; second] ++ (NAME <$> units)))
    as [Hin | Hout]; [|by right].
  left. apply (placed_or_unplaced order unplaced d Hpl); [|done].
  apply elem_of_app in Hin as [Hres | Hdecl]; [|done].
  exfalso. apply Hnot. destruct Hpl as ((added & -> & _) & _).
  apply elem_of_app. by left.
Qed.

End Orders.

(** *** The callbacks *)

(** With callbacks that do not raise, each unit of the order is loaded and
    then notified, once, in the order. *)
Lemma load_all_calls {World : Type}
    (load notify_loaded : string → World → option World) order
    (r : run World) :
  (∀ unit_name w, is_Some (load unit_name w)) →
  (∀ unit_name w, is_Some (notify_loaded unit_name w)) →
  ∃ w,
    load_all load notify_loaded order r
    = (Return tt,
       {| world := w;
          calls := calls r
                   ++ concat ((λ unit_name,
                                 [Load unit_name; NotifyLoaded unit_name])
                              <$> order) |}).
Proof.
  intros Hload Hnotify. revert r.
  induction order as [|unit_name order IH]; intros r; simpl.
  - exists (world r). rewrite app_nil_r. by destruct r.
  - unfold bind, call_load, call_notify_loaded.
    destruct (Hload unit_name (world r)) as [w1 ->]. simpl.
    destruct (Hnotify unit_name w1) as [w2 ->]. simpl.
    destruct (IH {| world := w2;
                    calls := (calls r ++ [Load unit_name])
                             ++ [NotifyLoaded unit_name] |}) as [w ->].
    exists w. simpl. by rewrite <- !app_assoc.
Qed.

(** *** The claims on the loader *)

(** C2: for units with names of their own, whose dependencies are
    declared (or reserved) and make no cycle, the loader computes an order;
    it starts with the two reserved units, holds every declared unit once
    after them, puts every unit after each of its dependencies, and places,
    among the units ready at a time, the one declared first.  The order is
    a function of the units alone: whatever the callbacks and the state of
    the application, a load that returns returns this order. *)
Theorem acyclic_units_load_in_order first second units :
  NoDup (first :: second :: (NAME <$> units)) →
  closed [first; second] units →
  acyclic units →
  ∃ rest,
    load_order first second units = Return (first :: second :: rest)
    ∧ rest ≡ₚ NAME <$> units
    ∧ dependencies_first units (first :: second :: rest)
    ∧ declaration_breaks_ties units (first :: second :: rest)
    ∧ ∀ (World : Type) (load notify_loaded : string → World → option World)
        (r : run World) order,
        (load_packages first second load notify_loaded units r).1
        = Return order →
        order = first :: second :: rest.
Proof.
  intros Hnames Hclosed Hacyclic.
  pose proof (placing_rounds first second units Hnames (length units))
    as Hpl.
  pose proof (place_ends (length units) [first; second] units (le_n _))
    as Hend.
  assert (∃ rest, load_order first second units
                  = Return (first :: second :: rest)
                  ∧ placing first second units (first :: second :: rest) [])
    as (rest & Hload & Hfinal).
  { unfold load_order.
    destruct (place (length units) [first; second] units) as [order un].
    simpl in *. destruct Hend as [-> | [Hne Hstuck]].
    - destruct Hpl as ((added & -> & Hperm) & Hrest).
      exists added. split; [done|]. split; [by exists added | done].
    - exfalso. destruct un as [|u un]; [done|].
      destruct (no_sink_cycle (depends_on units) (NAME <$> u :: un) (NAME u))
        as [z Hz].
      + by left.
      + intros a Ha.
        destruct (stuck_waits first second units order (u :: un) a
                    Hpl Hstuck Ha) as (d & Hdep & [Hd | Hd]).
        * by exists d.
        * exfalso. apply Hd. destruct Hdep as (v & Hv & _ & Hdv).
          by apply (Hclosed v d).
      + by apply (Hacyclic z). }
  exists rest. split; [done|].
  destruct Hfinal as ((added & [= <-] & Hperm) & _ & Hdeps & Hties).
  split; [by rewrite app_nil_r in Hperm|].
  split; [done|]. split; [done|].
  intros World load notify_loaded r order.
  unfold load_packages. rewrite Hload. unfold bind.
  destruct (load_all load notify_loaded (first :: second :: rest) r)
    as [[[]|e] r']; simpl; [by intros [= <-] | done].
Qed.

(** C3: for units with names of their own among which some unit reaches
    itself along dependencies, the loader raises [CyclicDependencyError]
    and leaves the run as it was: no callback is called, for no unit.  The
    error names the units left unplaced, in declaration order: every unit
    on a cycle is among them, and each of them waits for one of them or for
    a name that is not declared. *)
Theorem cyclic_units_fail_unloaded first second units (World : Type)
    (load notify_loaded : string → World → option World) (r : run World) :
  NoDup (first :: second :: (NAME <$> units)) →
  cyclic units →
  ∃ unresolved,
    load_order first second units
    = Raise (CyclicDependencyError unresolved)
    ∧ load_packages first second load notify_loaded units r
      = (Raise (CyclicDependencyError unresolved), r)
    ∧ (∀ a, tc (depends_on units) a a → a ∈ unresolved)
    ∧ unresolved `sublist_of` (NAME <$> units)
    ∧ ∀ x, x ∈ unresolved →
        ∃ d, depends_on units x d
             ∧ (d ∈ unresolved ∨ d ∉ [first; second] ++ (NAME <$> units)).
Proof.
  intros Hnames [a Hcycle].
  pose proof (placing_rounds first second units Hnames (length units))
    as Hpl.
  pose proof (place_ends (length units) [first; second] units (le_n _))
    as Hend.
  unfold load_packages, load_order.
  destruct (place (length units) [first; second] units) as [order un].
  simpl in *.
  assert (∀ b, tc (depends_on units) b b → b ∈ NAME <$> un) as Hall.
  { intros b Hb.
    apply (placed_or_unplaced first second units order un b Hpl).
    - by apply on_cycle_declared.
    - by eapply placed_not_on_cycle. }
  destruct un as [|u un].
  { specialize (Hall a Hcycle). by apply elem_of_nil in Hall. }
  destruct Hend as [? | [_ Hstuck]]; [done|].
  exists (NAME <$> u :: un).
  split; [done|]. split; [done|]. split; [done|]. split.
  - destruct Hpl as (_ & Hsub & _). by apply sublist_names in Hsub.
  - intros x Hx.
    by apply (stuck_waits first second units order (u :: un) x).
Qed.

(** *** The claims at sample inputs *)

Lemma db_api_closed : closed ["core"; "bootstrap"] Samples.db_api.
Proof.
  intros u d Hu Hd. unfold Samples.db_api in Hu.
  repeat (apply elem_of_cons in Hu as [-> | Hu]); simpl in Hd.
  - by apply elem_of_nil in Hd.
  - apply elem_of_cons in Hd as [-> | Hd]; [|by apply elem_of_nil in Hd].
    simpl. do 2 right. by left.
  - by apply elem_of_nil in Hu.
Qed.

Lemma db_api_acyclic : acyclic Samples.db_api.
Proof.
  assert (∀ x y, depends_on Samples.db_api x y → x = "api" ∧ y = "db")
    as Hedge.
  { intros x y (u & Hu & <- & Hd). unfold Samples.db_api in Hu.
    repeat (apply elem_of_cons in Hu as [-> | Hu]); simpl in Hd.
    - by apply elem_of_nil in Hd.
    - apply elem_of_cons in Hd as [-> | Hd]; [done|].
      by apply elem_of_nil in Hd.
    - by apply elem_of_nil in Hu. }
  assert (∀ x y, tc (depends_on Samples.db_api) x y → x = "api" ∧ y = "db")
    as Hreach.
  { induction 1 as [x y H | x y z H _ IH]; [by apply Hedge|].
    apply Hedge in H as [-> ->]. by destruct IH. }
  intros a Ha. by apply Hreach in Ha as [-> ?].
Qed.

Lemma acyclic_units_load_in_order_witness :
  ∃ rest,
    load_order "core" "bootstrap" Samples.db_api
    = Return ("core" :: "bootstrap" :: rest)
    ∧ rest ≡ₚ NAME <$> Samples.db_api
    ∧ dependencies_first Samples.db_api ("core" :: "bootstrap" :: rest)
    ∧ declaration_breaks_ties Samples.db_api
        ("core" :: "bootstrap" :: rest)
    ∧ ∀ (World : Type) (load notify_loaded : string → World → option World)
        (r : run World) order,
        (load_packages "core" "bootstrap" load notify_loaded
           Samples.db_api r).1
        = Return order →
        order = "core" :: "bootstrap" :: rest.
Proof.
  apply (acyclic_units_load_in_order "core" "bootstrap" Samples.db_api).
  - apply (bool_decide_unpack _). by vm_compute.
  - exact db_api_closed.
  - exact db_api_acyclic.
Defined.

Lemma a_b_cycle_cyclic : cyclic Samples.a_b_cycle.
Proof.
  exists "a". apply (tc_l _ "a" "b" "a").
  - eexists. split; [apply list_elem_of_here|]. split; [done|].
    apply list_elem_of_here.
  - apply tc_once. eexists.
    split; [apply list_elem_of_further, list_elem_of_here|].
    split; [done|]. apply list_elem_of_here.
Qed.

Lemma cyclic_units_fail_unloaded_witness :
  ∃ unresolved,
    load_order "core" "bootstrap" Samples.a_b_cycle
    = Raise (CyclicDependencyError unresolved)
    ∧ load_packages "core" "bootstrap" Samples.counting Samples.counting
        Samples.a_b_cycle Samples.fresh_run
      = (Raise (CyclicDependencyError unresolved), Samples.fresh_run)
    ∧ (∀ a, tc (depends_on Samples.a_b_cycle) a a → a ∈ unresolved)
    ∧ unresolved `sublist_of` (NAME <$> Samples.a_b_cycle)
    ∧ ∀ x, x ∈ unresolved →
        ∃ d, depends_on Samples.a_b_cycle x d
             ∧ (d ∈ unresolved
                ∨ d ∉ ["core"; "bootstrap"] ++ (NAME <$> Samples.a_b_cycle)).
Proof.
  apply (cyclic_units_fail_unloaded "core" "bootstrap" Samples.a_b_cycle
           nat Samples.counting Samples.counting Samples.fresh_run).
  - apply (bool_decide_unpack _). by vm_compute.
  - exact a_b_cycle_cyclic.
Defined.

(** The example of the specification. *)
Example db_api_order :
  load_order "core" "bootstrap" Samples.db_api
  = Return ["core"; "bootstrap"; "db"; "api"].
Proof. reflexivity. Qed.

Example db_api_loaded :
  load_packages "core" "bootstrap" Samples.counting Samples.counting
    Samples.db_api Samples.fresh_run
  = (Return ["core"; "bootstrap"; "db"; "api"],
     {| world := 8;
        calls := [Load "core"; NotifyLoaded "core";
                  Load "bootstrap"; NotifyLoaded "bootstrap";
                  Load "db"; NotifyLoaded "db";
                  Load "api"; NotifyLoaded "api"] |}).
Proof. reflexivity. Qed.

(** Of [web] and [db], both ready at the start, [web] is declared first;
    [api] waits for [db]. *)
Example api_web_db_order :
  load_order "core" "bootstrap" Samples.api_web_db
  = Return ["core"; "bootstrap"; "web"; "db"; "api"].
Proof. reflexivity. Qed.

(** The error names [a] and [b], not [c], which was placed. *)
Example a_b_cycle_error :
  load_packages "core" "bootstrap" Samples.counting Samples.counting
    Samples.a_b_cycle Samples.fresh_run
  = (Raise (CyclicDependencyError ["a"; "b"]), Samples.fresh_run).
Proof. reflexivity. Qed.

End PackagingSpec.

(** * Further properties of the code *)

(** ** The hashing registry in use *)

Module HashingUse.
Import Hashing HashingSpec HashingCalls.

(** X1: in a manager reached by registrations, what a lookup returns under
    a name is a hashing handler whose own name is that name, and the name
    is not blank; a blank name is never found. *)
Theorem found_handler_is_named self name :
  reachable self →
  (∀ inst, _get_hashing_handler name self = (Return inst, self) →
     is_HashingBase inst = true ∧ get_name inst = Some name
     ∧ all_space name = false)
  ∧ (all_space name = true →
     _get_hashing_handler name self
     = (Raise HashingHandlerNotFoundError, self)).
Proof.
  intros Hreach. pose proof (reachable_well_keyed self Hreach) as Hwk.
  split.
  - intros inst Hget.
    destruct (_hashing_handlers self !! name) as [found|] eqn:Hl.
    + rewrite (get_found self name found Hl) in Hget.
      injection Hget as <-. by apply Hwk.
    + apply not_elem_of_dom in Hl.
      by rewrite (get_not_found self name Hl) in Hget.
  - intros Hblank. apply get_not_found. intros Hin.
    apply elem_of_dom in Hin as [found Hl].
    destruct (Hwk name found Hl) as (_ & _ & Hs). congruence.
Qed.

(** X2: after a registration that returned, new or replacing, a lookup of
    the instance's name returns the instance, and a lookup of any other name
    gives what it gave before. *)
Theorem register_then_get self inst options self' :
  register_hashing_handler inst options self = (Return tt, self') →
  ∃ name,
    get_name inst = Some name
    ∧ _get_hashing_handler name self' = (Return inst, self')
    ∧ ∀ other, other ≠ name →
        (_get_hashing_handler other self').1
        = (_get_hashing_handler other self).1.
Proof.
  intros Hrun.
  assert (∃ name, get_name inst = Some name
                  ∧ _hashing_handlers self'
                    = <[name := inst]> (_hashing_handlers self))
    as (name & Hname & Hmap).
  { pose proof (register_cases self inst options) as Hc.
    rewrite Hrun in Hc. simpl in Hc.
    inversion Hc as [ | | | name old ? ? ? ? ? | name ? ? ? ?]; subst;
      by exists name. }
  exists name. split; [done|]. split.
  - apply get_found. rewrite Hmap. apply lookup_insert_eq.
  - intros other Hne.
    assert (_hashing_handlers self' !! other
            = _hashing_handlers self !! other) as Hother
      by (rewrite Hmap; by apply lookup_insert_ne).
    destruct (_hashing_handlers self !! other) as [found|] eqn:Hl.
    + rewrite (get_found self other found Hl).
      by rewrite (get_found self' other found Hother).
    + rewrite (get_not_found self other) by (by apply not_elem_of_dom).
      by rewrite (get_not_found self' other) by (by apply not_elem_of_dom).
Qed.

(** X3: a registration prints a warning exactly when it replaces: the
    warning names the handler that was held and the one that replaces it;
    a first registration under a name and a registration that raises print
    nothing. *)
Theorem warning_only_on_replace self inst options result self' :
  register_hashing_handler inst options self = (result, self') →
  match result with
  | Raise _ => printed self' = printed self
  | Return _ =>
      ∃ name,
        get_name inst = Some name
        ∧ match _hashing_handlers self !! name with
          | Some old => printed self' = printed self ++ [Warning old inst]
          | None => printed self' = printed self
          end
  end.
Proof.
  intros Hrun. pose proof (register_cases self inst options) as Hc.
  rewrite Hrun in Hc. simpl in Hc.
  destruct Hc as [? | ? ? | name ? ? ? ? ? | name old ? ? Hs Hold ?
                 | name ? ? ? Hnew]; try done.
  - exists name. split; [done|]. by rewrite Hold.
  - exists name. split; [done|]. apply not_elem_of_dom in Hnew.
    by rewrite Hnew.
Qed.

(** X4: of its options a registration reads [replace] only, and not even
    that when the name is free. *)
Theorem register_reads_replace_only self inst options options' :
  (options !! "replace" = options' !! "replace"
   ∨ ∀ name, get_name inst = Some name →
       name ∉ dom (_hashing_handlers self)) →
  register_hashing_handler inst options self
  = register_hashing_handler inst options' self.
Proof.
  intros Hsame. unfold register_hashing_handler.
  destruct (is_HashingBase inst); simpl; [|done].
  destruct (get_name inst) as [name|]; [|done].
  destruct (len (strip name) =? 0)%nat; [done|].
  unfold bind, contains, read, ret. simpl.
  destruct (bool_decide (name ∈ dom (_hashing_handlers self))) eqn:Hin;
    [|done].
  apply bool_decide_eq_true in Hin.
  destruct Hsame as [Hsame | Hfree]; [|by destruct (Hfree name eq_refl)].
  unfold options_get. by rewrite Hsame.
Qed.

Section Handlers.

Context {Text Hashed Result Verdict : Type}.
Variable handler_generate_hash :
  instance → Text → gmap string pyval → Result.
Variable handler_is_match : instance → Text → Hashed → Verdict.

(** X5: after a registration that returned, hashing and matching under
    the instance's name are done by that instance, and leave the manager as
    it is; under a name that is not registered both raise
    [HashingHandlerNotFoundError]. *)
Theorem hashing_goes_to_registered self inst options self' :
  register_hashing_handler inst options self = (Return tt, self') →
  ∃ name,
    get_name inst = Some name
    ∧ (∀ text opts,
         generate_hash handler_generate_hash name text opts self'
         = (Return (handler_generate_hash inst text opts), self'))
    ∧ (∀ text hashed,
         is_match handler_is_match name text hashed self'
         = (Return (handler_is_match inst text hashed), self'))
    ∧ ∀ other text opts hashed,
        other ∉ dom (_hashing_handlers self') →
        generate_hash handler_generate_hash other text opts self'
        = (Raise HashingHandlerNotFoundError, self')
        ∧ is_match handler_is_match other text hashed self'
          = (Raise HashingHandlerNotFoundError, self').
Proof.
  intros Hrun.
  assert (∃ name, get_name inst = Some name
                  ∧ _hashing_handlers self' !! name = Some inst)
    as (name & Hname & Hheld).
  { pose proof (register_cases self inst options) as Hc.
    rewrite Hrun in Hc. simpl in Hc.
    inversion Hc as [ | | | name old ? ? ? ? ? | name ? ? ? ?]; subst;
      exists name; (split; [done|]); simpl; apply lookup_insert_eq. }
  exists name. split; [done|].
  unfold generate_hash, is_match, bind.
  rewrite (get_found self' name inst Hheld). split; [done|]. split; [done|].
  intros other text opts hashed Hother.
  by rewrite (get_not_found self' other Hother).
Qed.

End Handlers.

(** *** At sample inputs *)

Lemma found_handler_is_named_witness :
  (∀ inst,
     _get_hashing_handler "bcrypt" Samples.with_bcrypt
     = (Return inst, Samples.with_bcrypt) →
     is_HashingBase inst = true ∧ get_name inst = Some "bcrypt"
     ∧ all_space "bcrypt" = false)
  ∧ (all_space "bcrypt" = true →
     _get_hashing_handler "bcrypt" Samples.with_bcrypt
     = (Raise HashingHandlerNotFoundError, Samples.with_bcrypt)).
Proof.
  apply (found_handler_is_named Samples.with_bcrypt "bcrypt").
  exact with_bcrypt_reachable.
Defined.

Lemma register_then_get_witness :
  ∃ name,
    get_name Samples.bcrypt_second = Some name
    ∧ _get_hashing_handler name MoreSamples.replaced_bcrypt
      = (Return Samples.bcrypt_second, MoreSamples.replaced_bcrypt)
    ∧ ∀ other, other ≠ name →
        (_get_hashing_handler other MoreSamples.replaced_bcrypt).1
        = (_get_hashing_handler other Samples.with_bcrypt).1.
Proof.
  apply (register_then_get Samples.with_bcrypt Samples.bcrypt_second
           (Samples.replace_given (PyBool true))
           MoreSamples.replaced_bcrypt).
  reflexivity.
Defined.

Lemma warning_only_on_replace_witness :
  ∃ name,
    get_name Samples.bcrypt_second = Some name
    ∧ match _hashing_handlers Samples.with_bcrypt !! name with
      | Some old =>
          printed MoreSamples.replaced_bcrypt
          = printed Samples.with_bcrypt
            ++ [Warning old Samples.bcrypt_second]
      | None =>
          printed MoreSamples.replaced_bcrypt = printed Samples.with_bcrypt
      end.
Proof.
  apply (warning_only_on_replace Samples.with_bcrypt Samples.bcrypt_second
           (Samples.replace_given (PyBool true)) (Return tt)
           MoreSamples.replaced_bcrypt).
  reflexivity.
Defined.

Lemma register_reads_replace_only_witness :
  register_hashing_handler Samples.bcrypt_second
    (<["salt_length" := PyInt 16]> (Samples.replace_given (PyBool true)))
    Samples.with_bcrypt
  = register_hashing_handler Samples.bcrypt_second
      (Samples.replace_given (PyBool true)) Samples.with_bcrypt.
Proof.
  apply (register_reads_replace_only Samples.with_bcrypt
           Samples.bcrypt_second).
  left. reflexivity.
Defined.

Lemma hashing_goes_to_registered_witness :
  ∃ name,
    get_name Samples.bcrypt_second = Some name
    ∧ (∀ text opts,
         generate_hash MoreSamples.tagged_hash name text opts
           MoreSamples.replaced_bcrypt
         = (Return (MoreSamples.tagged_hash Samples.bcrypt_second text opts),
            MoreSamples.replaced_bcrypt))
    ∧ (∀ text hashed,
         is_match MoreSamples.tagged_match name text hashed
           MoreSamples.replaced_bcrypt
         = (Return (MoreSamples.tagged_match Samples.bcrypt_second text
                      hashed),
            MoreSamples.replaced_bcrypt))
    ∧ ∀ other text opts hashed,
        other ∉ dom (_hashing_handlers MoreSamples.replaced_bcrypt) →
        generate_hash MoreSamples.tagged_hash other text opts
          MoreSamples.replaced_bcrypt
        = (Raise HashingHandlerNotFoundError, MoreSamples.replaced_bcrypt)
        ∧ is_match MoreSamples.tagged_match other text hashed
            MoreSamples.replaced_bcrypt
          = (Raise HashingHandlerNotFoundError, MoreSamples.replaced_bcrypt).
Proof.
  apply (hashing_goes_to_registered MoreSamples.tagged_hash
           MoreSamples.tagged_match Samples.with_bcrypt
           Samples.bcrypt_second (Samples.replace_given (PyBool true))
           MoreSamples.replaced_bcrypt).
  reflexivity.
Defined.

(** After the replacement the second handler hashes, not the first. *)
Example hash_after_replace :
  generate_hash MoreSamples.tagged_hash "bcrypt" "secret" ∅
    MoreSamples.replaced_bcrypt
  = (Return (2, "secret"), MoreSamples.replaced_bcrypt).
Proof. reflexivity. Qed.

End HashingUse.

(** ** File names and patterns *)

Module FileUtilsSpec.
Import FileUtils.

Local Open Scope string_scope.

Lemma lower_char_idempotent c : lower_char (lower_char c) = lower_char c.
Proof. destruct c as [[] [] [] [] [] [] [] []]; reflexivity. Qed.

Lemma lower_idempotent s : lower (lower s) = lower s.
Proof.
  induction s as [|c s IH]; simpl; [done|].
  by rewrite lower_char_idempotent, IH.
Qed.

Lemma append_empty s : s ++ "" = s.
Proof.
  induction s as [|c s IH]; [done|].
  change (String c s ++ "") with (String c (s ++ "")). by rewrite IH.
Qed.

(** [endswith] holds of the strings that are the suffix after some
    string. *)
Lemma endswith_suffix s suffix :
  endswith s suffix = true ↔ ∃ q, s = q ++ suffix.
Proof.
  induction s as [|c s IH].
  - change (endswith "" suffix) with (("" =? suffix) || false).
    rewrite orb_false_r, String.eqb_eq. split.
    + intros <-. by exists "".
    + intros [q Hq]. destruct q; [done | discriminate].
  - change (endswith (String c s) suffix)
      with ((String c s =? suffix) || endswith s suffix).
    rewrite orb_true_iff, String.eqb_eq, IH. split.
    + intros [<- | [q ->]]; [by exists "" | by exists (String c q)].
    + intros [[|c' q] Hq]; [by left|].
      change (String c' q ++ suffix) with (String c' (q ++ suffix)) in Hq.
      injection Hq as -> ->. right. by exists q.
Qed.

Lemma match_any_exists source (patterns : list string) :
  match_any source patterns = true
  ↔ ∃ pattern, pattern ∈ patterns
               ∧ endswith (lower source) (lower pattern) = true.
Proof.
  induction patterns as [|p patterns IH]; simpl.
  - split; [done|]. intros (p & Hp & _). by apply elem_of_nil in Hp.
  - destruct (endswith (lower source) (lower p)) eqn:Hp.
    + split; [|done]. intros _. exists p. split; [by left | done].
    + rewrite IH. split.
      * intros (q & Hq & Hm). exists q. split; [by right | done].
      * intros (q & Hq & Hm). apply elem_of_cons in Hq as [-> | Hq];
          [congruence|]. by exists q.
Qed.

Lemma is_match_patterns source (patterns : list string) :
  is_match source patterns = true
  ↔ patterns = []
    ∨ ∃ pattern, pattern ∈ patterns
                 ∧ endswith (lower source) (lower pattern) = true.
Proof.
  unfold is_match. destruct patterns as [|p patterns].
  - simpl. split; [by left | done].
  - replace (length (p :: patterns) <=? 0)%nat with false by done.
    rewrite match_any_exists. split; [by right|]. by intros [? | ?].
Qed.

(** X6: [is_match] holds when no pattern is given, and otherwise exactly
    when the file name, in lower case, ends with one of the patterns in
    lower case. *)
Theorem is_match_ends_with_a_pattern source (patterns : list string) :
  is_match source patterns = true
  ↔ patterns = []
    ∨ ∃ pattern q, pattern ∈ patterns
                   ∧ lower source = q ++ lower pattern.
Proof.
  rewrite is_match_patterns. split.
  - intros [? | (p & Hp & [q Hq]%endswith_suffix)]; [by left|].
    right. by exists p, q.
  - intros [? | (p & q & Hp & Hq)]; [by left|].
    right. exists p. split; [done|]. apply endswith_suffix. by exists q.
Qed.

(** X7: the case of the letters does not count, in the file name or in
    the patterns: names that agree in lower case match the same patterns,
    and patterns that agree in lower case, one by one, match the same
    names. *)
Theorem is_match_ignores_case source source' (patterns patterns' : list string) :
  lower source = lower source' →
  Forall2 (fun p p' => lower p = lower p') patterns patterns' →
  is_match source patterns = is_match source' patterns'.
Proof.
  intros Hs Hp. unfold is_match.
  rewrite <- (Forall2_length _ _ _ Hp).
  destruct (length patterns <=? 0)%nat; [done|].
  induction Hp as [|p p' ps ps' Hpp _ IH]; simpl; [done|].
  by rewrite Hs, Hpp, IH.
Qed.

(** X8: with a pattern given, further patterns never lose a match, and the
    empty pattern matches every name; dropping every pattern matches every
    name too. *)
Theorem is_match_with_more_patterns source (patterns more : list string) :
  (patterns ≠ [] →
   (∀ p, p ∈ patterns → p ∈ more) →
   is_match source patterns = true → is_match source more = true)
  ∧ ("" ∈ patterns → is_match source patterns = true)
  ∧ is_match source [] = true.
Proof.
  split; [|split].
  - intros Hne Hsub Hm. apply is_match_patterns.
    apply is_match_patterns in Hm as [? | (p & Hp & Hend)]; [done|].
    right. exists p. split; [by apply Hsub | done].
  - intros Hin. apply is_match_patterns. right. exists "".
    split; [done|]. apply endswith_suffix. exists (lower source).
    simpl. by rewrite append_empty.
  - done.
Qed.

(** The extension of a file named in capitals. *)
Example is_match_capitals : is_match "README.PY" [".html"; ".py"] = true.
Proof. reflexivity. Qed.

(** One pattern that does not fit loses the match that no pattern gave. *)
Example is_match_no_pattern_then_one :
  is_match "notes.txt" [] = true ∧ is_match "notes.txt" [".py"] = false.
Proof. split; reflexivity. Qed.

Lemma is_match_ignores_case_witness :
  is_match "README.PY" [".Py"] = is_match "readme.py" [".py"].
Proof.
  apply (is_match_ignores_case "README.PY" "readme.py" [".Py"] [".py"]).
  - reflexivity.
  - repeat constructor.
Defined.

End FileUtilsSpec.

(** ** The request context *)

Module SessionSpec.
Import Session.

Lemma add_accepted request name value :
  all_space name = false →
  add_request_context (Some name) value request
  = (Return tt, {| context := <[name := value]> (context request) |}).
Proof.
  intros Hs. apply strip_not_blank in Hs.
  unfold add_request_context. by rewrite Hs.
Qed.

Lemma add_refused request name value :
  all_space name = true →
  add_request_context (Some name) value request
  = (Raise InvalidRequestContextKeyNameError, request).
Proof.
  intros Hs. apply strip_blank in Hs.
  unfold add_request_context. by rewrite Hs.
Qed.

(** X9: [add_request_context] raises exactly for a key that is [None],
    empty or made of white space, and then leaves the context as it was;
    otherwise it sets the value under the key as given, not stripped, and
    changes no other key. *)
Theorem add_request_context_sets_or_refuses request key value result
    request' :
  add_request_context key value request = (result, request') →
  match result with
  | Raise e =>
      e = InvalidRequestContextKeyNameError ∧ request' = request
      ∧ (key = None ∨ ∃ name, key = Some name ∧ all_space name = true)
  | Return _ =>
      ∃ name,
        key = Some name ∧ all_space name = false
        ∧ context request' !! name = Some value
        ∧ ∀ other, other ≠ name →
            context request' !! other = context request !! other
  end.
Proof.
  destruct key as [name|].
  - destruct (all_space name) eqn:Hs.
    + rewrite add_refused by done. intros [= <- <-].
      split; [done|]. split; [done|]. right. by exists name.
    + rewrite add_accepted by done. intros [= <- <-].
      exists name. simpl. split; [done|]. split; [done|].
      split; [apply lookup_insert_eq|].
      intros other Hne. by apply lookup_insert_ne.
  - intros [= <- <-]. split; [done|]. split; [done|]. by left.
Qed.

(** X10: what is added under ["user"] is what [get_current_user] returns
    next; what is added under any other key, one that strips to ["user"]
    included, leaves the current user as it was. *)
Theorem current_user_after_add request name value request' :
  add_request_context (Some name) value request = (Return tt, request') →
  get_current_user request'
  = (if bool_decide (name = "user") then Return value
     else (get_current_user request).1, request').
Proof.
  destruct (all_space name) eqn:Hs.
  { by rewrite add_refused. }
  rewrite add_accepted by done. intros [= <-].
  unfold get_current_user, get_current_request_context,
    get_current_request, bind, read, ret, dict_get. simpl.
  case_bool_decide as Hname.
  - subst name. by rewrite lookup_insert_eq.
  - by rewrite lookup_insert_ne.
Qed.

(** X11: [is_fresh] leaves the request as it is; it raises only when the
    payload of the context is no dict, and returns anything but [False]
    only when the payload holds it under ["is_fresh"]: without a payload
    the request is not fresh. *)
Theorem is_fresh_says_the_payload request :
  (is_fresh request).2 = request
  ∧ ((is_fresh request).1 = Raise AttributeError
     ↔ ∃ v, context request !! "payload" = Some (Plain v))
  ∧ (∀ e, (is_fresh request).1 = Raise e → e = AttributeError)
  ∧ (∀ answer, (is_fresh request).1 = Return answer →
       answer = PyBool false
       ∨ ∃ d, context request !! "payload" = Some (Dict d)
              ∧ d !! "is_fresh" = Some answer)
  ∧ (context request !! "payload" = None →
     (is_fresh request).1 = Return (PyBool false)).
Proof.
  unfold is_fresh, get_current_payload, get_current_request_context,
    get_current_request, bind, read, ret, raise, dict_get, options_get.
  simpl.
  destruct (context request !! "payload") as [[v|d]|] eqn:Hp; simpl.
  - split; [done|]. split; [split; [by exists v | done]|].
    split; [by intros e [= <-]|]. split; done.
  - split; [done|]. split; [split; [done | by intros [v ?]]|].
    split; [done|]. split; [|done].
    intros answer [= <-].
    destruct (d !! "is_fresh") as [a|] eqn:Hd; [|by left].
    right. by exists d.
  - split; [done|]. split; [split; [done | by intros [v ?]]|].
    split; [done|]. split; [|done].
    intros answer [= <-]. left. done.
Qed.

(** X12: a key can be set again: of two additions under one key the
    second stands, as if it were the only one; additions under different
    keys give the same context in either order. *)
Theorem add_request_context_twice request name1 value1 name2 value2
    request1 request2 :
  add_request_context (Some name1) value1 request = (Return tt, request1) →
  add_request_context (Some name2) value2 request1 = (Return tt, request2) →
  (name1 = name2 →
   add_request_context (Some name2) value2 request = (Return tt, request2))
  ∧ (name1 ≠ name2 →
     ∃ request1',
       add_request_context (Some name2) value2 request
       = (Return tt, request1')
       ∧ add_request_context (Some name1) value1 request1'
         = (Return tt, request2)).
Proof.
  destruct (all_space name1) eqn:Hs1; [by rewrite add_refused|].
  destruct (all_space name2) eqn:Hs2;
    [intros _; by rewrite add_refused|].
  rewrite !add_accepted by done. intros [= <-] [= <-]. split.
  - intros ->. simpl. by rewrite insert_insert_eq.
  - intros Hne. eexists. split; [done|].
    rewrite add_accepted by done. simpl.
    by rewrite insert_insert_ne.
Qed.

(** *** At sample inputs *)

Lemma add_request_context_sets_or_refuses_witness :
  InvalidRequestContextKeyNameError = InvalidRequestContextKeyNameError
  ∧ MoreSamples.anonymous = MoreSamples.anonymous
  ∧ (Some "  " = None
     ∨ ∃ name, Some "  " = Some name ∧ all_space name = true).
Proof.
  apply (add_request_context_sets_or_refuses MoreSamples.anonymous
           (Some "  ") (Plain (PyInt 1))
           (Raise InvalidRequestContextKeyNameError) MoreSamples.anonymous).
  reflexivity.
Defined.

Lemma current_user_after_add_witness :
  get_current_user
    {| context := <[" user" := Plain (PyInt 9)]>
                    (context MoreSamples.signed_in) |}
  = ((get_current_user MoreSamples.signed_in).1,
     {| context := <[" user" := Plain (PyInt 9)]>
                     (context MoreSamples.signed_in) |}).
Proof.
  apply (current_user_after_add MoreSamples.signed_in " user"
           (Plain (PyInt 9))).
  reflexivity.
Defined.

Lemma add_request_context_twice_witness :
  ("user" = "user" →
   add_request_context (Some "user") (Plain (PyInt 2)) MoreSamples.anonymous
   = (Return tt, {| context := {[ "user" := Plain (PyInt 2) ]} |}))
  ∧ ("user" ≠ "user" →
     ∃ request1',
       add_request_context (Some "user") (Plain (PyInt 2))
         MoreSamples.anonymous
       = (Return tt, request1')
       ∧ add_request_context (Some "user") (Plain (PyInt 1)) request1'
         = (Return tt, {| context := {[ "user" := Plain (PyInt 2) ]} |})).
Proof.
  apply (add_request_context_twice MoreSamples.anonymous
           "user" (Plain (PyInt 1)) "user" (Plain (PyInt 2))
           {| context := {[ "user" := Plain (PyInt 1) ]} |}
           {| context := {[ "user" := Plain (PyInt 2) ]} |});
    reflexivity.
Defined.

Example signed_in_is_fresh :
  is_fresh MoreSamples.signed_in = (Return (PyBool true), MoreSamples.signed_in)
  ∧ is_fresh MoreSamples.anonymous
    = (Return (PyBool false), MoreSamples.anonymous)
  ∧ get_current_user MoreSamples.anonymous
    = (Return (Plain PyNone), MoreSamples.anonymous).
Proof. repeat split; reflexivity. Qed.

End SessionSpec.

(** ** Entities and dicts *)

Module ModelSpec.
Import Model.

Lemma written_columns columns items self :
  all_columns (written columns items self) = all_columns self
  ∧ exposed_columns (written columns items self) = exposed_columns self.
Proof.
  revert self. induction items as [|[key value] rest IH]; intros self;
    simpl; [done|].
  destruct (IH (if bool_decide (key ∈ columns)
                then setattr key value self else self)) as [-> ->].
  by case_bool_decide.
Qed.

Lemma written_elsewhere columns items self name :
  name ∉ columns ∨ name ∉ items.*1 →
  getattr (written columns items self) name = getattr self name.
Proof.
  revert self. induction items as [|[key value] rest IH]; intros self Hn;
    simpl; [done|].
  rewrite IH.
  - case_bool_decide as Hkey; [|done]. simpl.
    rewrite bool_decide_eq_false_2; [done|]. intros ->.
    destruct Hn as [Hn | Hn]; [done|]. apply Hn. simpl. by left.
  - destruct Hn as [Hn | Hn]; [by left|]. right. intros Hin.
    apply Hn. simpl. by right.
Qed.

Lemma written_value columns items self name value :
  NoDup items.*1 → (name, value) ∈ items → name ∈ columns →
  getattr (written columns items self) name = value.
Proof.
  revert self. induction items as [|[key v] rest IH]; intros self Hnd Hin Hc.
  - by apply elem_of_nil in Hin.
  - simpl in *. apply NoDup_cons in Hnd as [Hfresh Hnd].
    apply elem_of_cons in Hin as [[= -> ->] | Hin].
    + rewrite written_elsewhere by (by right).
      rewrite bool_decide_eq_true_2 by done. simpl.
      by rewrite bool_decide_eq_true_2.
    + by apply IH.
Qed.

Lemma from_dict_items_lenient silent columns items self :
  is_False silent = false ∨ (∀ key, key ∈ items.*1 → key ∈ columns) →
  from_dict_items silent columns items self
  = (Return tt, written columns items self).
Proof.
  revert self. induction items as [|[key value] rest IH]; intros self Hok;
    simpl; [done|].
  assert (is_False silent = false
          ∨ ∀ k, k ∈ rest.*1 → k ∈ columns) as Hrest.
  { destruct Hok as [? | Hok]; [by left|]. right. intros k Hk.
    apply Hok. simpl. by right. }
  unfold bind at 1. case_bool_decide as Hkey.
  - unfold bind, read, put. simpl. by apply IH.
  - destruct Hok as [-> | Hok].
    + unfold ret. by apply IH.
    + exfalso. apply Hkey, Hok. simpl. by left.
Qed.

Lemma from_dict_items_strict silent columns valid bad value rest self :
  is_False silent = true →
  (∀ key, key ∈ valid.*1 → key ∈ columns) → bad ∉ columns →
  from_dict_items silent columns (valid ++ (bad, value) :: rest) self
  = (Raise (ColumnNotExistedError bad), written columns valid self).
Proof.
  intros Hsilent. revert self.
  induction valid as [|[key v] valid IH]; intros self Hvalid Hbad; simpl.
  - unfold bind at 1. rewrite bool_decide_eq_false_2 by done.
    by rewrite Hsilent.
  - unfold bind at 1.
    rewrite bool_decide_eq_true_2 by (apply Hvalid; simpl; by left).
    unfold bind, read, put. simpl. apply IH; [|done].
    intros k Hk. apply Hvalid. simpl. by right.
Qed.

Lemma from_dict_items_returned silent columns items self self' :
  from_dict_items silent columns items self = (Return tt, self') →
  self' = written columns items self.
Proof.
  revert self. induction items as [|[key value] rest IH]; intros self;
    simpl.
  - by intros [= <-].
  - unfold bind at 1. case_bool_decide as Hkey.
    + unfold bind, read, put. simpl. apply IH.
    + destruct (is_False silent); [done|]. unfold ret. apply IH.
Qed.

(** X13: unless [silent_on_invalid_column] is [False] itself, [from_dict]
    does not raise: it sets the attributes whose keys are columns to the
    values given, skips the other keys, and leaves every other attribute
    and the columns as they were. *)
Theorem from_dict_silent_skips_unknown silent kwargs self :
  is_False silent = false →
  ∃ self',
    from_dict silent kwargs self = (Return tt, self')
    ∧ all_columns self' = all_columns self
    ∧ exposed_columns self' = exposed_columns self
    ∧ (∀ name, name ∉ all_columns self ∨ name ∉ kwargs.*1 →
         getattr self' name = getattr self name)
    ∧ (NoDup kwargs.*1 →
       ∀ name value, (name, value) ∈ kwargs → name ∈ all_columns self →
         getattr self' name = value).
Proof.
  intros Hsilent. exists (written (all_columns self) kwargs self).
  split.
  { unfold from_dict, bind, read. simpl.
    apply from_dict_items_lenient. by left. }
  destruct (written_columns (all_columns self) kwargs self) as [Ha He].
  split; [done|]. split; [done|]. split.
  - intros name Hn. by apply written_elsewhere.
  - intros Hnd name value Hin Hc. by apply written_value.
Qed.

(** X14: with [silent_on_invalid_column=False], as the constructor calls
    it, [from_dict] raises [ColumnNotExistedError] for the first key that is
    no column.  The values of the keys before it are set by then and stay
    set; the values after it are not set. *)
Theorem from_dict_strict_stops_at_unknown valid bad value rest self :
  (∀ key, key ∈ valid.*1 → key ∈ all_columns self) →
  bad ∉ all_columns self →
  ∃ self',
    from_dict (PyBool false) (valid ++ (bad, value) :: rest) self
    = (Raise (ColumnNotExistedError bad), self')
    ∧ (NoDup valid.*1 →
       ∀ name v, (name, v) ∈ valid → getattr self' name = v)
    ∧ ∀ name, name ∉ valid.*1 → getattr self' name = getattr self name.
Proof.
  intros Hvalid Hbad. exists (written (all_columns self) valid self).
  split; [|split].
  - unfold from_dict, bind, read. simpl.
    by apply from_dict_items_strict.
  - intros Hnd name v Hin. apply written_value; [done..|].
    apply Hvalid. apply list_elem_of_fmap. by exists (name, v).
  - intros name Hn. apply written_elsewhere. by right.
Qed.

Lemma to_dict_fold (columns : list string) (self : entity)
    (start : gmap string pyval) col :
  foldl (fun result c => <[c := getattr self c]> result) start columns
  !! col
  = if bool_decide (col ∈ columns) then Some (getattr self col)
    else start !! col.
Proof.
  revert start. induction columns as [|c columns IH]; intros start.
  - case_bool_decide as Hin; [by apply elem_of_nil in Hin | done].
  - simpl. rewrite IH. case_bool_decide as Hin.
    + rewrite bool_decide_eq_true_2; [done | by right].
    + destruct (decide (col = c)) as [-> | Hne].
      * rewrite lookup_insert_eq.
        rewrite bool_decide_eq_true_2; [done | by left].
      * rewrite lookup_insert_ne by done.
        rewrite bool_decide_eq_false_2; [done|].
        intros [? | ?]%elem_of_cons; done.
Qed.

(** X15: the dict [to_dict] returns has a key for each exposed column and
    for nothing else, and holds under it what the attribute reads. *)
Theorem to_dict_holds_exposed self col :
  to_dict self !! col
  = if bool_decide (col ∈ exposed_columns self)
    then Some (getattr self col) else None.
Proof. unfold to_dict. by rewrite to_dict_fold, lookup_empty. Qed.

(** X16: what [from_dict] was given for an exposed column, [to_dict]
    gives back; what it was given for a column that is not exposed does
    not show in the dict. *)
Theorem from_dict_then_to_dict silent kwargs self self' name value :
  from_dict silent kwargs self = (Return tt, self') →
  NoDup kwargs.*1 → (name, value) ∈ kwargs → name ∈ all_columns self →
  to_dict self' !! name
  = if bool_decide (name ∈ exposed_columns self) then Some value else None.
Proof.
  intros Hrun Hnd Hin Hcol.
  assert (self' = written (all_columns self) kwargs self) as ->.
  { unfold from_dict, bind, read in Hrun. simpl in Hrun.
    by apply from_dict_items_returned in Hrun. }
  unfold to_dict.
  destruct (written_columns (all_columns self) kwargs self) as [_ ->].
  rewrite to_dict_fold, lookup_empty.
  by rewrite (written_value _ kwargs self name value).
Qed.

(** *** At sample inputs *)

Lemma from_dict_silent_skips_unknown_witness :
  ∃ self',
    from_dict (PyBool true) [("name", PyStr "ann"); ("age", PyInt 3)]
      MoreSamples.user_entity
    = (Return tt, self')
    ∧ all_columns self' = all_columns MoreSamples.user_entity
    ∧ exposed_columns self' = exposed_columns MoreSamples.user_entity
    ∧ (∀ name,
         name ∉ all_columns MoreSamples.user_entity
         ∨ name ∉ [("name", PyStr "ann"); ("age", PyInt 3)].*1 →
         getattr self' name = getattr MoreSamples.user_entity name)
    ∧ (NoDup [("name", PyStr "ann"); ("age", PyInt 3)].*1 →
       ∀ name value,
         (name, value) ∈ [("name", PyStr "ann"); ("age", PyInt 3)] →
         name ∈ all_columns MoreSamples.user_entity →
         getattr self' name = value).
Proof.
  apply (from_dict_silent_skips_unknown (PyBool true)
           [("name", PyStr "ann"); ("age", PyInt 3)]
           MoreSamples.user_entity).
  reflexivity.
Defined.

Lemma from_dict_strict_stops_at_unknown_witness :
  ∃ self',
    from_dict (PyBool false)
      ([("name", PyStr "ann")] ++ ("age", PyInt 3) :: [("id", PyInt 1)])
      MoreSamples.user_entity
    = (Raise (ColumnNotExistedError "age"), self')
    ∧ (NoDup [("name", PyStr "ann")].*1 →
       ∀ name v, (name, v) ∈ [("name", PyStr "ann")] →
         getattr self' name = v)
    ∧ ∀ name, name ∉ [("name", PyStr "ann")].*1 →
        getattr self' name = getattr MoreSamples.user_entity name.
Proof.
  apply (from_dict_strict_stops_at_unknown [("name", PyStr "ann")] "age"
           (PyInt 3) [("id", PyInt 1)] MoreSamples.user_entity).
  - intros key Hkey. apply list_elem_of_singleton in Hkey as ->.
    apply (bool_decide_unpack _). by vm_compute.
  - apply (bool_decide_unpack _). by vm_compute.
Defined.

Lemma from_dict_then_to_dict_witness :
  to_dict
    (setattr "password" (PyStr "x")
       (setattr "name" (PyStr "ann") MoreSamples.user_entity))
  !! "password"
  = if bool_decide ("password" ∈ exposed_columns MoreSamples.user_entity)
    then Some (PyStr "x") else None.
Proof.
  apply (from_dict_then_to_dict (PyBool true)
           [("name", PyStr "ann"); ("password", PyStr "x")]
           MoreSamples.user_entity).
  - reflexivity.
  - apply (bool_decide_unpack _). by vm_compute.
  - apply list_elem_of_further, list_elem_of_here.
  - apply (bool_decide_unpack _). by vm_compute.
Defined.

(** A [silent_on_invalid_column] that is falsy without being [False] does
    not make [from_dict] raise. *)
Example from_dict_zero_is_silent :
  (from_dict (PyInt 0) [("age", PyInt 3)] MoreSamples.user_entity).1
  = Return tt
  ∧ (from_dict (PyBool false) [("age", PyInt 3)] MoreSamples.user_entity).1
    = Raise (ColumnNotExistedError "age").
Proof. split; reflexivity. Qed.

Example to_dict_hides_password :
  to_dict (setattr "password" (PyStr "x") MoreSamples.user_entity)
  = {[ "id" := PyNone; "name" := PyNone ]}.
Proof. reflexivity. Qed.

End ModelSpec.

(** ** The cache of column names *)

Module ColumnCacheSpec.
Import ColumnCache.

(** *** The lookup of the attribute along the resolution order *)

Lemma lookup_along_held order attrs owner dto :
  lookup_along order attrs = Some (owner, dto) →
  attrs !! owner = Some dto ∧ owner ∈ order.
Proof.
  induction order as [|c order IH]; simpl; [done|].
  destruct (attrs !! c) as [d|] eqn:Hc.
  - intros [= <- <-]. split; [done | by left].
  - intros H. destruct (IH H) as [? ?]. split; [done | by right].
Qed.

Lemma lookup_along_none order attrs :
  lookup_along order attrs = None ↔ ∀ c, c ∈ order → attrs !! c = None.
Proof.
  induction order as [|c order IH]; simpl.
  - split; [|done]. intros _ c Hc. by apply elem_of_nil in Hc.
  - destruct (attrs !! c) as [d|] eqn:Hc.
    + split; [done|]. intros H. specialize (H c (list_elem_of_here _ _)).
      congruence.
    + rewrite IH. split.
      * intros H k [-> | Hk]%elem_of_cons; [done | by apply H].
      * intros H k Hk. apply H. by right.
Qed.

Lemma lookup_along_head c rest attrs dto :
  attrs !! c = Some dto → lookup_along (c :: rest) attrs = Some (c, dto).
Proof. intros H. simpl. by rewrite H. Qed.

(** New contents for the owner leave it the owner. *)
Lemma lookup_along_update order attrs owner dto dto' :
  lookup_along order attrs = Some (owner, dto) →
  lookup_along order (<[owner := dto']> attrs) = Some (owner, dto').
Proof.
  induction order as [|c order IH]; simpl; [done|].
  destruct (attrs !! c) as [d|] eqn:Hc.
  - intros [= <- <-]. by rewrite lookup_insert_eq.
  - intros H. destruct (lookup_along_held _ _ _ _ H) as [Ho _].
    rewrite lookup_insert_ne by congruence. rewrite Hc. by apply IH.
Qed.

(** New contents for another class that had the attribute change
    nothing. *)
Lemma lookup_along_other order attrs owner dto other d d' :
  lookup_along order attrs = Some (owner, dto) →
  other ≠ owner → attrs !! other = Some d →
  lookup_along order (<[other := d']> attrs) = Some (owner, dto).
Proof.
  intros H Hne Hother. revert H.
  induction order as [|c order IH]; simpl; [done|].
  destruct (attrs !! c) as [dc|] eqn:Hc.
  - intros [= <- <-]. rewrite lookup_insert_ne by done. by rewrite Hc.
  - intros H. rewrite lookup_insert_ne by congruence. rewrite Hc.
    by apply IH.
Qed.

(** A class outside the order does not count. *)
Lemma lookup_along_outside order attrs other d :
  other ∉ order →
  lookup_along order (<[other := d]> attrs) = lookup_along order attrs.
Proof.
  induction order as [|c order IH]; simpl; [done|]. intros Hout.
  rewrite lookup_insert_ne by (intros ->; apply Hout; by left).
  destruct (attrs !! c); [done|]. apply IH. intros Hin. apply Hout.
  by right.
Qed.

(** Nor does a class after the owner. *)
Lemma lookup_along_behind before base behind attrs owner dto d :
  base ∉ before →
  lookup_along (before ++ base :: behind) attrs = Some (owner, dto) →
  attrs !! base = None →
  lookup_along (before ++ base :: behind) (<[base := d]> attrs)
  = Some (owner, dto)
  ∨ owner ∈ behind.
Proof.
  induction before as [|c before IH]; simpl; intros Hout.
  - intros H Hbase. rewrite Hbase in H. right.
    by destruct (lookup_along_held _ _ _ _ H).
  - destruct (attrs !! c) as [dc|] eqn:Hc.
    + intros [= <- <-] _. left.
      rewrite lookup_insert_ne by (intros ->; apply Hout; by left).
      by rewrite Hc.
    + intros H Hbase.
      rewrite lookup_insert_ne by (intros ->; apply Hout; by left).
      rewrite Hc. apply IH; [|done..]. intros Hin. apply Hout. by right.
Qed.

(** *** What a call does *)

Section Mapper.

Variable bases : string → list string.
Variable mapped_columns : string → list string.

Local Arguments lookup_along : simpl never.

Lemma get_all_columns_reads cls st :
  _get_all_columns bases cls st
  = (Return match lookup_along (cls :: bases cls) (_all_columns st) with
            | Some (_, dto) => dto !! cls
            | None => None
            end, st).
Proof.
  unfold _get_all_columns, getattr_all_columns, bind, read, ret. simpl.
  by destruct (lookup_along (cls :: bases cls) (_all_columns st)) as [[o dto]|].
Qed.

Lemma set_all_columns_held cls columns st owner dto :
  lookup_along (cls :: bases cls) (_all_columns st) = Some (owner, dto) →
  _set_all_columns bases cls columns st
  = (Return tt,
     {| _all_columns := <[owner := <[cls := columns]> dto]> (_all_columns st);
        asked := asked st |}).
Proof.
  intros H. unfold _set_all_columns, getattr_all_columns, bind, read, ret,
    put. simpl. rewrite H. simpl. by rewrite H.
Qed.

Lemma set_all_columns_new cls columns st :
  lookup_along (cls :: bases cls) (_all_columns st) = None →
  _set_all_columns bases cls columns st
  = (Return tt,
     {| _all_columns := <[cls := {[cls := columns]}]> (_all_columns st);
        asked := asked st |}).
Proof.
  intros H. unfold _set_all_columns, getattr_all_columns, bind, read, ret,
    put. simpl. rewrite H. simpl.
  assert (lookup_along (cls :: bases cls) (<[cls := ∅]> (_all_columns st))
          = Some (cls, ∅)) as ->.
  { unfold lookup_along. by rewrite lookup_insert_eq. }
  simpl. by rewrite insert_insert_eq, insert_empty.
Qed.

(** The names are in the cache: the call returns them and touches
    nothing. *)
Lemma all_columns_hit cls st owner dto columns :
  lookup_along (cls :: bases cls) (_all_columns st) = Some (owner, dto) →
  dto !! cls = Some columns →
  all_columns bases mapped_columns cls st = (Return (Some columns), st).
Proof.
  intros H Hc. unfold all_columns, bind.
  rewrite get_all_columns_reads, H, Hc. unfold ret.
  by rewrite get_all_columns_reads, H, Hc.
Qed.

(** The attribute is there without the names of the type: the mapper is
    asked and the names go where the attribute is. *)
Lemma all_columns_fill cls st owner dto :
  lookup_along (cls :: bases cls) (_all_columns st) = Some (owner, dto) →
  dto !! cls = None →
  all_columns bases mapped_columns cls st
  = (Return (Some (mapped_columns cls)),
     {| _all_columns :=
          <[owner := <[cls := mapped_columns cls]> dto]> (_all_columns st);
        asked := asked st ++ [cls] |}).
Proof.
  intros H Hc. unfold all_columns, bind.
  rewrite get_all_columns_reads, H, Hc.
  unfold ask_mapper, bind, read, put, ret. simpl.
  rewrite (set_all_columns_held cls _ _ owner dto) by done. simpl.
  rewrite get_all_columns_reads. simpl.
  rewrite (lookup_along_update _ _ _ _ _ H). by rewrite lookup_insert_eq.
Qed.

(** No class of the order has the attribute: the class of the entity gets
    it. *)
Lemma all_columns_create cls st :
  lookup_along (cls :: bases cls) (_all_columns st) = None →
  all_columns bases mapped_columns cls st
  = (Return (Some (mapped_columns cls)),
     {| _all_columns :=
          <[cls := {[cls := mapped_columns cls]}]> (_all_columns st);
        asked := asked st ++ [cls] |}).
Proof.
  intros H. unfold all_columns, bind.
  rewrite get_all_columns_reads, H.
  unfold ask_mapper, bind, read, put, ret. simpl.
  rewrite set_all_columns_new by done. simpl.
  rewrite get_all_columns_reads. simpl.
  unfold lookup_along. rewrite lookup_insert_eq.
  by rewrite lookup_singleton_eq.
Qed.

Lemma all_columns_consistent cls st :
  consistent mapped_columns st →
  (all_columns bases mapped_columns cls st).1
  = Return (Some (mapped_columns cls))
  ∧ consistent mapped_columns (all_columns bases mapped_columns cls st).2.
Proof.
  intros Hcons.
  destruct (lookup_along (cls :: bases cls) (_all_columns st)) as [[owner dto]|]
    eqn:Hl.
  - destruct (lookup_along_held _ _ _ _ Hl) as [Ho _].
    destruct (dto !! cls) as [columns|] eqn:Hc.
    + rewrite (all_columns_hit cls st owner dto columns) by done.
      split; [|done]. simpl. by rewrite (Hcons owner dto cls columns).
    + rewrite (all_columns_fill cls st owner dto) by done.
      split; [done|]. intros o d t cols. simpl.
      rewrite lookup_insert. case_decide as Howner.
      * intros [= <-]. rewrite lookup_insert. case_decide as Ht.
        -- subst t. by intros [= <-].
        -- intros Ht'. by apply (Hcons owner dto).
      * apply Hcons.
  - rewrite all_columns_create by done. split; [done|].
    intros o d t cols. simpl. rewrite lookup_insert. case_decide as Howner.
    + intros [= <-]. rewrite lookup_singleton. case_decide as Ht; [|done].
      subst t. by intros [= <-].
    + apply Hcons.
Qed.

Lemma reachable_consistent st :
  reachable bases mapped_columns st → consistent mapped_columns st.
Proof.
  induction 1 as [|st cls result st' _ IH Hcall].
  - intros o d t cols. simpl. by rewrite lookup_empty.
  - destruct (all_columns_consistent cls st IH) as [_ H].
    by rewrite Hcall in H.
Qed.

(** The call returns names, and they are in the cache after it. *)
Lemma all_columns_returns_cached cls st :
  ∃ owner dto columns,
    (all_columns bases mapped_columns cls st).1 = Return (Some columns)
    ∧ lookup_along (cls :: bases cls)
        (_all_columns (all_columns bases mapped_columns cls st).2)
      = Some (owner, dto)
    ∧ dto !! cls = Some columns.
Proof.
  destruct (lookup_along (cls :: bases cls) (_all_columns st))
    as [[owner dto]|] eqn:Hl.
  - destruct (dto !! cls) as [columns|] eqn:Hc.
    + rewrite (all_columns_hit cls st owner dto columns) by done.
      by exists owner, dto, columns.
    + rewrite (all_columns_fill cls st owner dto) by done. simpl.
      exists owner, (<[cls := mapped_columns cls]> dto), (mapped_columns cls).
      split; [done|]. split.
      * by apply lookup_along_update with dto.
      * by rewrite lookup_insert_eq.
  - rewrite all_columns_create by done. simpl.
    exists cls, {[cls := mapped_columns cls]}, (mapped_columns cls).
    split; [done|]. split.
    + apply lookup_along_head. by rewrite lookup_insert_eq.
    + by rewrite lookup_singleton_eq.
Qed.

Lemma all_columns_caches cls st :
  cached bases cls (all_columns bases mapped_columns cls st).2.
Proof.
  destruct (all_columns_returns_cached cls st)
    as (owner & dto & columns & _ & Hl & Hc).
  exists owner, dto. split; [done|]. by rewrite Hc.
Qed.

(** With single inheritance, a call for one type keeps the names of every
    other type in the cache. *)
Lemma cached_kept cls other st :
  linear bases → cached bases other st →
  cached bases other (all_columns bases mapped_columns cls st).2.
Proof.
  intros Hlin (oA & dA & HlA & HcA).
  destruct (lookup_along_held _ _ _ _ HlA) as [HoA _].
  destruct (lookup_along (cls :: bases cls) (_all_columns st))
    as [[oB dB]|] eqn:Hl.
  - destruct (lookup_along_held _ _ _ _ Hl) as [HoB _].
    destruct (dB !! cls) as [columns|] eqn:Hc.
    + rewrite (all_columns_hit cls st oB dB columns) by done.
      by exists oA, dA.
    + rewrite (all_columns_fill cls st oB dB) by done. simpl.
      destruct (decide (oB = oA)) as [-> | Hne].
      * assert (dB = dA) as -> by congruence.
        exists oA, (<[cls := mapped_columns cls]> dA). split.
        -- by apply lookup_along_update with dA.
        -- rewrite lookup_insert. by case_decide.
      * exists oA, dA. split; [|done].
        by apply lookup_along_other with dB.
  - rewrite all_columns_create by done. simpl.
    pose proof (proj1 (lookup_along_none _ _) Hl) as Hnone.
    destruct (decide (cls ∈ other :: bases other)) as [Hin | Hout].
    + apply elem_of_cons in Hin as [-> | Hin].
      { rewrite Hl in HlA. done. }
      destruct (Hlin other) as [Hnd Hsuffix].
      destruct (Hsuffix cls Hin) as [between Hbases].
      assert (cls ∉ other :: between) as Hbefore.
      { intros Hb. rewrite Hbases, app_comm_cons in Hnd.
        apply NoDup_app in Hnd as (_ & Hsep & _).
        apply (Hsep cls Hb). by left. }
      rewrite Hbases, app_comm_cons in HlA.
      destruct (lookup_along_behind (other :: between) cls (bases cls)
                  (_all_columns st) oA dA {[cls := mapped_columns cls]}
                  Hbefore HlA) as [Hsame | Hbehind].
      * apply Hnone. by left.
      * exists oA, dA. split; [|done].
        by rewrite Hbases, app_comm_cons.
      * exfalso. assert (_all_columns st !! oA = None) as Hno
          by (apply Hnone; by right).
        congruence.
    + exists oA, dA. split; [|done]. simpl.
      by rewrite lookup_along_outside.
Qed.

(** With single inheritance, the types the mapper was asked for are in
    the cache, each asked for once. *)
Lemma asked_cached st :
  linear bases → reachable bases mapped_columns st →
  NoDup (asked st) ∧ ∀ cls, cls ∈ asked st → cached bases cls st.
Proof.
  intros Hlin. induction 1 as [|st cls result st' _ [Hnd Hall] Hcall].
  - split; [constructor|]. intros cls Hin. by apply elem_of_nil in Hin.
  - assert (st' = (all_columns bases mapped_columns cls st).2) as Hst'
      by (by rewrite Hcall).
    assert (asked st' = asked st
            ∨ asked st' = asked st ++ [cls] ∧ ¬ cached bases cls st)
      as Hasked.
    { rewrite Hst'.
      destruct (lookup_along (cls :: bases cls) (_all_columns st))
        as [[owner dto]|] eqn:Hl.
      - destruct (dto !! cls) as [columns|] eqn:Hc.
        + rewrite (all_columns_hit cls st owner dto columns) by done.
          by left.
        + rewrite (all_columns_fill cls st owner dto) by done. right.
          split; [done|]. intros (o & d & Ho & [c Hd]). congruence.
      - rewrite all_columns_create by done. right. split; [done|].
        intros (o & d & Ho & _). congruence. }
    split.
    + destruct Hasked as [-> | [-> Hnew]]; [done|].
      apply NoDup_app. split; [done|]. split; [|apply NoDup_singleton].
      intros t Ht Hcls. apply list_elem_of_singleton in Hcls as ->.
      by apply Hnew, Hall.
    + intros t Ht. rewrite Hst'.
      destruct Hasked as [Heq | [Heq Hnew]]; rewrite Heq in Ht.
      * by apply cached_kept, Hall.
      * apply elem_of_app in Ht as [Ht | Ht].
        -- by apply cached_kept, Hall.
        -- apply list_elem_of_singleton in Ht as ->.
           apply all_columns_caches.
Qed.

End Mapper.

(** *** The properties of the cache *)

(** X17: after any calls of [all_columns], on entities of whatever types,
    a call for a type returns the column names the mapper gives for that
    very type, never [None] and never those of a base or a subclass that
    shares the cache. *)
Theorem all_columns_of_own_type bases mapped_columns cls st :
  reachable bases mapped_columns st →
  ∃ st',
    all_columns bases mapped_columns cls st
    = (Return (Some (mapped_columns cls)), st').
Proof.
  intros Hreach. apply reachable_consistent in Hreach.
  destruct (all_columns_consistent bases mapped_columns cls st Hreach)
    as [Hres _].
  destruct (all_columns bases mapped_columns cls st) as [result st'].
  exists st'. simpl in Hres. by rewrite Hres.
Qed.

(** X18: a call repeated at once is answered from the cache: it returns
    what the first call returned, asks the mapper nothing and leaves the
    classes as they are. *)
Theorem all_columns_again bases mapped_columns cls st result st' :
  all_columns bases mapped_columns cls st = (result, st') →
  (∃ columns, result = Return (Some columns))
  ∧ all_columns bases mapped_columns cls st' = (result, st').
Proof.
  intros Hcall.
  destruct (all_columns_returns_cached bases mapped_columns cls st)
    as (owner & dto & columns & Hres & Hl & Hc).
  rewrite Hcall in Hres, Hl. simpl in Hres, Hl. subst result.
  split; [by exists columns|].
  by apply all_columns_hit with owner dto.
Qed.

(** X19: with single inheritance the names of a type are computed once:
    in the states reached by calls of [all_columns] the mapper was asked
    for no type twice. *)
Theorem mapper_asked_once bases mapped_columns st :
  linear bases → reachable bases mapped_columns st → NoDup (asked st).
Proof. intros Hlin Hreach. by apply (asked_cached bases mapped_columns). Qed.

(** *** At sample inputs *)

Lemma user_asked_reachable :
  reachable MoreSamples.entity_bases MoreSamples.entity_columns
    MoreSamples.user_asked.
Proof.
  apply (reachable_all_columns _ _ no_cache "User"
           (Return (Some ["id"; "name"])));
    [constructor | reflexivity].
Qed.

Lemma entity_bases_linear : linear MoreSamples.entity_bases.
Proof.
  intros cls. unfold MoreSamples.entity_bases.
  case_bool_decide as Hadmin; [|case_bool_decide as Huser].
  - subst cls. split; [apply (bool_decide_unpack _); by vm_compute|].
    intros base Hbase.
    repeat (apply elem_of_cons in Hbase as [-> | Hbase]).
    + by exists [].
    + by exists ["User"].
    + by apply elem_of_nil in Hbase.
  - subst cls. split; [apply (bool_decide_unpack _); by vm_compute|].
    intros base Hbase.
    repeat (apply elem_of_cons in Hbase as [-> | Hbase]).
    + by exists [].
    + by apply elem_of_nil in Hbase.
  - split; [apply NoDup_singleton|].
    intros base Hbase. by apply elem_of_nil in Hbase.
Qed.

Lemma all_columns_of_own_type_witness :
  ∃ st',
    all_columns MoreSamples.entity_bases MoreSamples.entity_columns "Admin"
      MoreSamples.user_asked
    = (Return (Some (MoreSamples.entity_columns "Admin")), st').
Proof.
  apply (all_columns_of_own_type MoreSamples.entity_bases
           MoreSamples.entity_columns "Admin" MoreSamples.user_asked).
  exact user_asked_reachable.
Defined.

Lemma all_columns_again_witness :
  (∃ columns,
     (Return (Some ["id"; "name"]) : outcome error (option (list string)))
     = Return (Some columns))
  ∧ all_columns MoreSamples.entity_bases MoreSamples.entity_columns "User"
      MoreSamples.user_asked
    = (Return (Some ["id"; "name"]), MoreSamples.user_asked).
Proof.
  apply (all_columns_again MoreSamples.entity_bases
           MoreSamples.entity_columns "User" no_cache).
  reflexivity.
Defined.

Lemma mapper_asked_once_witness : NoDup (asked MoreSamples.user_asked).
Proof.
  apply (mapper_asked_once MoreSamples.entity_bases
           MoreSamples.entity_columns MoreSamples.user_asked).
  - exact entity_bases_linear.
  - exact user_asked_reachable.
Defined.

(** A subclass shares the cache of its base and still gets its own
    names. *)
Example admin_after_user :
  all_columns MoreSamples.entity_bases MoreSamples.entity_columns "Admin"
    MoreSamples.user_asked
  = (Return (Some ["id"; "name"; "level"]),
     {| _all_columns :=
          {[ "User" := {[ "User" := ["id"; "name"];
                          "Admin" := ["id"; "name"; "level"] ]} ]};
        asked := ["User"; "Admin"] |}).
Proof. reflexivity. Qed.

(** With two bases the names of a type can be computed again: the
    attribute the first base gets later hides the one of the second base,
    where the names of [Both] were kept. *)
Example both_is_asked_twice :
  let call cls st :=
    (all_columns MoreSamples.mixed_bases MoreSamples.entity_columns cls st).2
  in
  asked (call "Both" (call "Left" (call "Both" (call "Right" no_cache))))
  = ["Right"; "Both"; "Left"; "Both"].
Proof. reflexivity. Qed.

End ColumnCacheSpec.

(** ** The schema items of a column *)

Module SchemaSpec.
Import Schema.

Section Constraints.

Context {Item : Type}.
Variable range_check_constraint : option string → setting → setting → Item.
Variable check_constraint : option string → setting → Item.
Variable custom : CoreColumn → list Item.

Lemma not_True_is_True (v : pyval) : v ≠ PyBool true → is_True v = false.
Proof. intros Hv. destruct v as [| [|] | |]; done. Qed.

Lemma or_else_first x y :
  is_filled_list x = true → or_else x y = x.
Proof. unfold or_else. destruct x; try done. simpl. by intros ->. Qed.

Lemma or_else_second x y : is_None x = true → or_else x y = y.
Proof. unfold or_else. by destruct x as [| | |[]]. Qed.

(** X20: for a column without a name or a type, and for a primary key
    column, [_get_schema_items] returns the custom items alone and raises
    nothing, whatever the check keywords are. *)
Theorem unchecked_column_gets_custom_items self :
  unnamed self = true ∨ untyped self = true
  ∨ primary_key self = PyBool true →
  _get_schema_items range_check_constraint check_constraint custom self
  = Return (custom self).
Proof.
  unfold _get_schema_items. intros [Hn | [Ht | Hpk]].
  - by rewrite Hn.
  - rewrite Ht. by rewrite orb_true_r.
  - rewrite Hpk. simpl. by destruct (unnamed self || untyped self).
Qed.

(** X21: for a column with a name and a type that is no primary key,
    [_get_schema_items] raises [CheckConstraintConflictError] exactly when
    [check_in] and [check_not_in] are both given, valid or not, and
    [InvalidCheckConstraintError] exactly when one of them alone is given
    and is not a list with at least one item. *)
Theorem check_keywords_refused self :
  checked self →
  (_get_schema_items range_check_constraint check_constraint custom self
   = Raise CheckConstraintConflictError
   ↔ is_None (check_in self) = false ∧ is_None (check_not_in self) = false)
  ∧ (_get_schema_items range_check_constraint check_constraint custom self
     = Raise InvalidCheckConstraintError
     ↔ (is_None (check_in self) = false
        ∧ is_None (check_not_in self) = true
        ∧ is_filled_list (check_in self) = false)
       ∨ (is_None (check_in self) = true
          ∧ is_None (check_not_in self) = false
          ∧ is_filled_list (check_not_in self) = false)).
Proof.
  intros (Hn & Ht & Hpk). apply not_True_is_True in Hpk.
  unfold _get_schema_items. rewrite Hn, Ht, Hpk. simpl.
  destruct (check_in self) as [|?|[|? ?]|[|?|?|?]],
           (check_not_in self) as [|?|[|? ?]|[|?|?|?]];
    simpl; split; split; try done;
    first [ intros [[? [? ?]] | [? [? ?]]]; done
          | intros [? ?]; done
          | intros _; (left + right); done
          | intros _; done ].
Qed.

(** X22: when it returns for such a column, the items are the custom
    items, in front, then a range constraint if [min_value] or [max_value]
    is given and is no callable, built from those of the two that are, then
    a check constraint on the one check keyword given, if any: never more
    than two items beside the custom ones. *)
Theorem checked_column_items self items :
  checked self →
  _get_schema_items range_check_constraint check_constraint custom self
  = Return items →
  items
  = custom self
    ++ (if is_None (bound (min_value self))
           && is_None (bound (max_value self))
        then []
        else [range_check_constraint (name self)
                (bound (min_value self)) (bound (max_value self))])
    ++ (if negb (is_None (check_in self))
        then [check_constraint (name self) (check_in self)]
        else if negb (is_None (check_not_in self))
        then [check_constraint (name self) (check_not_in self)]
        else []).
Proof.
  intros (Hn & Ht & Hpk). apply not_True_is_True in Hpk.
  unfold _get_schema_items. rewrite Hn, Ht, Hpk. simpl.
  fold (bound (min_value self)). fold (bound (max_value self)).
  destruct (is_None (check_in self)) eqn:Hci,
           (is_None (check_not_in self)) eqn:Hcni; simpl; try done.
  - intros [= <-].
    destruct (is_None (bound (min_value self))),
             (is_None (bound (max_value self))); simpl;
      by rewrite ?app_nil_r.
  - destruct (is_filled_list (check_not_in self)) eqn:Hf; simpl; [|done].
    intros [= <-]. rewrite or_else_second by done.
    destruct (is_None (bound (min_value self))),
             (is_None (bound (max_value self))); simpl;
      by rewrite <- ?app_assoc, ?app_nil_r.
  - destruct (is_filled_list (check_in self)) eqn:Hf; simpl; [|done].
    intros [= <-]. rewrite or_else_first by done.
    destruct (is_None (bound (min_value self))),
             (is_None (bound (max_value self))); simpl;
      by rewrite <- ?app_assoc, ?app_nil_r.
Qed.

End Constraints.

(** *** At sample inputs *)

Lemma unchecked_column_gets_custom_items_witness :
  _get_schema_items MoreSamples.RangeCheck MoreSamples.ValueCheck
    MoreSamples.no_custom_items MoreSamples.conflicting_key
  = Return (MoreSamples.no_custom_items MoreSamples.conflicting_key).
Proof.
  apply (unchecked_column_gets_custom_items MoreSamples.RangeCheck
           MoreSamples.ValueCheck MoreSamples.no_custom_items
           MoreSamples.conflicting_key).
  right. right. reflexivity.
Defined.

Lemma conflicting_checked : checked MoreSamples.conflicting.
Proof. repeat split; done. Qed.

Lemma bounded_checked : checked MoreSamples.bounded.
Proof. repeat split; done. Qed.

Lemma check_keywords_refused_witness :
  (_get_schema_items MoreSamples.RangeCheck MoreSamples.ValueCheck
     MoreSamples.no_custom_items MoreSamples.conflicting
   = Raise CheckConstraintConflictError
   ↔ is_None (check_in MoreSamples.conflicting) = false
     ∧ is_None (check_not_in MoreSamples.conflicting) = false)
  ∧ (_get_schema_items MoreSamples.RangeCheck MoreSamples.ValueCheck
       MoreSamples.no_custom_items MoreSamples.conflicting
     = Raise InvalidCheckConstraintError
     ↔ (is_None (check_in MoreSamples.conflicting) = false
        ∧ is_None (check_not_in MoreSamples.conflicting) = true
        ∧ is_filled_list (check_in MoreSamples.conflicting) = false)
       ∨ (is_None (check_in MoreSamples.conflicting) = true
          ∧ is_None (check_not_in MoreSamples.conflicting) = false
          ∧ is_filled_list (check_not_in MoreSamples.conflicting) = false)).
Proof.
  apply (check_keywords_refused MoreSamples.RangeCheck
           MoreSamples.ValueCheck MoreSamples.no_custom_items
           MoreSamples.conflicting).
  exact conflicting_checked.
Defined.

Lemma checked_column_items_witness :
  [MoreSamples.RangeCheck (Some "age") (PlainValue (PyInt 0)) NoneValue;
   MoreSamples.ValueCheck (Some "age") (ListValue [PyInt 13])]
  = MoreSamples.no_custom_items MoreSamples.bounded
    ++ (if is_None (bound (min_value MoreSamples.bounded))
           && is_None (bound (max_value MoreSamples.bounded))
        then []
        else [MoreSamples.RangeCheck (name MoreSamples.bounded)
                (bound (min_value MoreSamples.bounded))
                (bound (max_value MoreSamples.bounded))])
    ++ (if negb (is_None (check_in MoreSamples.bounded))
        then [MoreSamples.ValueCheck (name MoreSamples.bounded)
                (check_in MoreSamples.bounded)]
        else if negb (is_None (check_not_in MoreSamples.bounded))
        then [MoreSamples.ValueCheck (name MoreSamples.bounded)
                (check_not_in MoreSamples.bounded)]
        else []).
Proof.
  apply (checked_column_items MoreSamples.RangeCheck MoreSamples.ValueCheck
           MoreSamples.no_custom_items MoreSamples.bounded).
  - exact bounded_checked.
  - reflexivity.
Defined.

(** The conflict is raised for the column and passes unseen on the same
    column as a primary key. *)
Example conflict_raised_unless_key :
  _get_schema_items MoreSamples.RangeCheck MoreSamples.ValueCheck
    MoreSamples.no_custom_items MoreSamples.conflicting
  = Raise CheckConstraintConflictError
  ∧ _get_schema_items MoreSamples.RangeCheck MoreSamples.ValueCheck
      MoreSamples.no_custom_items MoreSamples.conflicting_key
    = Return [].
Proof. split; reflexivity. Qed.

End SchemaSpec.
